(** * hidi: the hierarchical dependency container

    A shallow embedding of [src/container.ts] (class [DependencyContainer])
    and the properties of its registry operations.

    Containers are JavaScript objects: they are mutated in place and are
    shared by reference (a child holds a reference to its parent, and
    [setParent] can build any graph, cycles included).  The embedding
    therefore keeps an explicit store of container objects, addressed by
    references, and every method is a computation over that store.  The
    recursion of [get] and [has] through the parent chain is not structural
    (it loops on a cyclic chain), so both take the call depth they may use
    as fuel; running out of it is the outcome [Diverge]. *)

From stdpp Require Import base option list gmap strings.

Open Scope string_scope.

(** ** JavaScript values *)

(** The values that can be passed as a key or stored as a dependency.
    A function (class constructor) carries the value of its [name]
    property, which is the empty string for an anonymous class; [fid] and
    [oid] are object identities. *)
Inductive jsval : Type :=
  | VUndefined
  | VNull
  | VBool (b : bool)
  | VNum (n : Z)
  | VStr (s : string)
  | VFun (name : string) (fid : nat)
  | VObj (oid : nat).

Global Instance jsval_eq_dec : EqDecision jsval.
Proof. solve_decision. Defined.

(** The [typeof] operator. *)
Definition typeof (v : jsval) : string :=
  match v with
  | VUndefined => "undefined"
  | VNull => "object"
  | VBool _ => "boolean"
  | VNum _ => "number"
  | VStr _ => "string"
  | VFun _ _ => "function"
  | VObj _ => "object"
  end.

(** [injectable] read as a string, after [typeof injectable === 'string']. *)
Definition string_value (v : jsval) : option string :=
  match v with VStr s => Some s | _ => None end.

(** [injectable.name], after [typeof injectable === 'function']. *)
Definition function_name (v : jsval) : option string :=
  match v with VFun name _ => Some name | _ => None end.

(** [new Error(message)]: the only exception the container throws. *)
Inductive exn : Type :=
  | Error (message : string).

(** ** The store *)

(** A reference to a container object. *)
Abbreviation ref := nat (only parsing).

(** The two fields of a [DependencyContainer]. *)
Record DependencyContainer : Type := mkContainer {
  dependencies : gmap string jsval;
  parent : option ref
}.

(** The store: the container objects allocated so far; a reference is an
    index, and [new] appends. *)
Abbreviation heap := (list DependencyContainer) (only parsing).

(** Every parent reference denotes an allocated container (a JavaScript
    reference never dangles). *)
Definition heap_wf (h : heap) : bool :=
  forallb (λ c, match parent c with
                | Some p => bool_decide (p < length h)
                | None => true
                end) h.

(** ** Computations *)

Inductive outcome (A : Type) : Type :=
  | Ret (a : A)         (* normal completion *)
  | Throw (e : exn)     (* an exception reached the caller *)
  | Diverge             (* the call depth was exhausted *)
  | Stuck.              (* a reference outside the store *)
Arguments Ret {A} a.
Arguments Throw {A} e.
Arguments Diverge {A}.
Arguments Stuck {A}.

Definition M (A : Type) : Type := heap → outcome A * heap.

Global Instance M_ret : MRet M := λ A a h, (Ret a, h).

Global Instance M_bind : MBind M := λ A B f m h,
  match m h with
  | (Ret a, h') => f a h'
  | (Throw e, h') => (Throw e, h')
  | (Diverge, h') => (Diverge, h')
  | (Stuck, h') => (Stuck, h')
  end.

Definition throw {A : Type} (e : exn) : M A := λ h, (Throw e, h).

Definition diverge {A : Type} : M A := λ h, (Diverge, h).

(** Reading the fields of the object behind a reference. *)
Definition deref (r : ref) : M DependencyContainer := λ h,
  match h !! r with
  | Some c => (Ret c, h)
  | None => (Stuck, h)
  end.

(** Writing the object behind a reference. *)
Definition store (r : ref) (c : DependencyContainer) : M unit := λ h,
  match h !! r with
  | Some _ => (Ret (), <[r := c]> h)
  | None => (Stuck, h)
  end.

(** ** The class *)

(** [constructor(parent?)]: the [dependencies] field is initialised to
    [new Map()]. *)
Definition new_DependencyContainer (parent : option ref) : M ref := λ h,
  (Ret (length h), (h ++ [mkContainer ∅ parent])%list).

(** [getInjectableKey(injectable)].  [!key] holds when [key] was left
    [undefined] or is the empty string. *)
Definition getInjectableKey (injectable : jsval) : M string :=
  let key : option string :=
    if String.eqb (typeof injectable) "string" then string_value injectable
    else if String.eqb (typeof injectable) "function" then function_name injectable
    else None in
  match key with
  | Some k =>
      if String.eqb k "" then throw (Error "Cannot get key for injectable.")
      else mret k
  | None => throw (Error "Cannot get key for injectable.")
  end.

(** [this.dependencies.set(key, injectable)]. *)
Definition dependencies_set (this : ref) (key : string) (injectable : jsval)
  : M unit :=
  self ← deref this;
  store this (mkContainer (<[key := injectable]> (dependencies self)) (parent self)).

(** [register(key, injectable)]: the argument [this.getInjectableKey(key)]
    is evaluated before [set] is called. *)
Definition register (this : ref) (key : jsval) (injectable : jsval) : M unit :=
  k ← getInjectableKey key;
  dependencies_set this k injectable.

(** [get(injectable)]. *)
Fixpoint get (fuel : nat) (this : ref) (injectable : jsval) : M jsval :=
  match fuel with
  | O => diverge
  | S fuel' =>
      key ← getInjectableKey injectable;
      self ← deref this;
      match dependencies self !! key with
      | Some v => mret v
      | None =>
          match parent self with
          | Some p => get fuel' p injectable
          | None => mret VUndefined
          end
      end
  end.

(** [require(injectable)]. *)
Definition require (fuel : nat) (this : ref) (injectable : jsval) : M jsval :=
  value ← get fuel this injectable;
  if decide (value = VUndefined) then
    name ← getInjectableKey injectable;
    throw (Error ("Required dependency '" ++ name ++ "' not found in container"))
  else mret value.

(** [has(injectable)]: the parent is asked with the resolved [key], and
    [?? false] covers the missing parent. *)
Fixpoint has (fuel : nat) (this : ref) (injectable : jsval) : M bool :=
  match fuel with
  | O => diverge
  | S fuel' =>
      key ← getInjectableKey injectable;
      self ← deref this;
      if bool_decide (is_Some (dependencies self !! key)) then mret true
      else
        match parent self with
        | Some p => has fuel' p (VStr key)
        | None => mret false
        end
  end.

(** [extend()]. *)
Definition extend (this : ref) : M ref :=
  new_DependencyContainer (Some this).

(** [setParent(parent)]. *)
Definition setParent (this : ref) (newParent : ref) : M unit :=
  self ← deref this;
  store this (mkContainer (dependencies self) (Some newParent)).

(** ** The parent chain *)

(** The container reached from [a] by following [n] parent links. *)
Fixpoint ancestor (h : heap) (n : nat) (a : ref) : option ref :=
  match n with
  | O => Some a
  | S n' =>
      match h !! a with
      | Some c =>
          match parent c with
          | Some p => ancestor h n' p
          | None => None
          end
      | None => None
      end
  end.

(** The chain of [a] ends in a container without parent after at most [n]
    links. *)
Fixpoint reaches_root (h : heap) (n : nat) (a : ref) : bool :=
  match h !! a with
  | Some c =>
      match parent c with
      | None => true
      | Some p =>
          match n with
          | O => false
          | S n' => reaches_root h n' p
          end
      end
  | None => false
  end.

(** [a] lies on a cycle of [n + 1] parent links, and no registry of the
    cycle has the identifier [k] in its own table. *)
Definition on_missing_cycle (h : heap) (k : string) (n : nat) (a : ref) : Prop :=
  ancestor h (S n) a = Some a
  ∧ ∀ (i : nat) b c, (i ≤ n)%nat → ancestor h i a = Some b → h !! b = Some c →
             dependencies c !! k = None.

(** Every parent was allocated before its children: the record at
    reference [a] names a parent below [a].  [ordered_from a h] checks the
    records of [h] as those at references [a], [a + 1], ... *)
Fixpoint ordered_from (a : nat) (h : heap) : bool :=
  match h with
  | [] => true
  | c :: h' =>
      match parent c with
      | Some p => bool_decide (p < a)
      | None => true
      end && ordered_from (S a) h'
  end.

Definition heap_ordered (h : heap) : bool := ordered_from 0 h.

(** ** Sample stores *)

Definition MyService : jsval := VFun "MyService" 0.

Definition root_heap : heap := [mkContainer ∅ None].

(** One container holding one service. *)
Definition service_heap : heap := [mkContainer {[ "Service" := VObj 1 ]} None].

(** Two roots that both hold "Service", and a third container whose
    parent is the first. *)
Definition two_parents_heap : heap :=
  [ mkContainer {[ "Service" := VObj 1 ]} None;
    mkContainer {[ "Service" := VObj 2 ]} None;
    mkContainer ∅ (Some 0) ].

(** Grandparent, parent and child, each with a service of its own. *)
Definition three_level_heap : heap :=
  [ mkContainer {[ "Service1" := VObj 1 ]} None;
    mkContainer {[ "Service2" := VObj 2 ]} (Some 0);
    mkContainer {[ "Service3" := VObj 3 ]} (Some 1) ].

(** Two containers that are each other's parent, as two calls of
    [setParent] leave them. *)
Definition cyclic_heap : heap :=
  [ mkContainer {[ "Service" := VObj 1 ]} (Some 1);
    mkContainer ∅ (Some 0) ].

Example get_sample :
  (register 0 MyService (VObj 7) ≫= λ _, get 1 0 MyService) root_heap
  = (Ret (VObj 7), [mkContainer {[ "MyService" := VObj 7 ]} None]).
Proof. vm_compute. reflexivity. Qed.

(** ** Key resolution *)

(** Which keys resolve, and to what. *)
Lemma getInjectableKey_Ret (K : jsval) (k : string) (h h' : heap) :
  getInjectableKey K h = (Ret k, h') →
  h' = h ∧ k ≠ "" ∧ (K = VStr k ∨ ∃ fid, K = VFun k fid).
Proof.
  unfold getInjectableKey.
  destruct K as [| | b | n | s | name fid | oid]; simpl; try discriminate.
  - destruct (String.eqb s "") eqn:E; [discriminate|].
    intros [= -> ->]. apply String.eqb_neq in E. eauto.
  - destruct (String.eqb name "") eqn:E; [discriminate|].
    intros [= -> ->]. apply String.eqb_neq in E. eauto.
Qed.

(** Resolution does not read the store. *)
Lemma getInjectableKey_any_heap (K : jsval) (k : string) (h h' : heap) :
  getInjectableKey K h = (Ret k, h) → getInjectableKey K h' = (Ret k, h').
Proof.
  intros H. apply getInjectableKey_Ret in H as (_ & Hne & [-> | [fid ->]]);
    unfold getInjectableKey; simpl;
    apply String.eqb_neq in Hne; rewrite Hne; reflexivity.
Qed.

(** A resolved identifier is itself a key, and resolves to itself: this is
    what the recursive call of [has] relies on. *)
Lemma getInjectableKey_resolved (K : jsval) (k : string) (h h' : heap) :
  getInjectableKey K h = (Ret k, h) → getInjectableKey (VStr k) h' = (Ret k, h').
Proof.
  intros H. apply getInjectableKey_Ret in H as (_ & Hne & _).
  unfold getInjectableKey; simpl.
  apply String.eqb_neq in Hne; rewrite Hne; reflexivity.
Qed.

(** The only failure of resolution is the exception, and the store is left
    as it was. *)
Lemma getInjectableKey_cases (K : jsval) (h : heap) :
  (∃ k, getInjectableKey K h = (Ret k, h)) ∨
  getInjectableKey K h = (Throw (Error "Cannot get key for injectable."), h).
Proof.
  unfold getInjectableKey.
  destruct K as [| | b | n | s | name fid | oid]; simpl; eauto.
  - destruct (String.eqb s ""); eauto.
  - destruct (String.eqb name ""); eauto.
Qed.

(** ** One step of each method *)

Lemma get_step (fuel : nat) (h : heap) (this : ref) (K : jsval) (k : string)
    (self : DependencyContainer) :
  getInjectableKey K h = (Ret k, h) →
  h !! this = Some self →
  get (S fuel) this K h =
    match dependencies self !! k with
    | Some v => (Ret v, h)
    | None =>
        match parent self with
        | Some p => get fuel p K h
        | None => (Ret VUndefined, h)
        end
    end.
Proof.
  intros Hk Hself. simpl. unfold mbind, M_bind, deref.
  rewrite Hk, Hself.
  destruct (dependencies self !! k); [reflexivity|].
  destruct (parent self); reflexivity.
Qed.

Lemma has_step (fuel : nat) (h : heap) (this : ref) (K : jsval) (k : string)
    (self : DependencyContainer) :
  getInjectableKey K h = (Ret k, h) →
  h !! this = Some self →
  has (S fuel) this K h =
    match dependencies self !! k with
    | Some _ => (Ret true, h)
    | None =>
        match parent self with
        | Some p => has fuel p (VStr k) h
        | None => (Ret false, h)
        end
    end.
Proof.
  intros Hk Hself. simpl. unfold mbind, M_bind, deref.
  rewrite Hk, Hself.
  destruct (dependencies self !! k) as [v|] eqn:E.
  - rewrite bool_decide_eq_true_2 by eauto. reflexivity.
  - rewrite bool_decide_eq_false_2 by (intros [? ?]; discriminate).
    destruct (parent self); reflexivity.
Qed.

Lemma require_step (fuel : nat) (h : heap) (this : ref) (K : jsval) (k : string) :
  getInjectableKey K h = (Ret k, h) →
  require fuel this K h =
    match get fuel this K h with
    | (Ret v, h') =>
        if decide (v = VUndefined) then
          match getInjectableKey K h' with
          | (Ret name, h'') =>
              (Throw (Error ("Required dependency '" ++ name
                             ++ "' not found in container")), h'')
          | (Throw e, h'') => (Throw e, h'')
          | (Diverge, h'') => (Diverge, h'')
          | (Stuck, h'') => (Stuck, h'')
          end
        else (Ret v, h')
    | (Throw e, h') => (Throw e, h')
    | (Diverge, h') => (Diverge, h')
    | (Stuck, h') => (Stuck, h')
    end.
Proof.
  intros _. unfold require, mbind, M_bind.
  destruct (get fuel this K h) as [[v | e | |] h']; try reflexivity.
  destruct (decide (v = VUndefined)); [|reflexivity].
  destruct (getInjectableKey K h') as [[name | e' | |] h'']; reflexivity.
Qed.

Lemma register_step (h : heap) (this : ref) (K V : jsval) (k : string)
    (self : DependencyContainer) :
  getInjectableKey K h = (Ret k, h) →
  h !! this = Some self →
  register this K V h =
    (Ret (), <[this := mkContainer (<[k := V]> (dependencies self)) (parent self)]> h).
Proof.
  intros Hk Hself. unfold register, dependencies_set, mbind, M_bind, deref, store.
  rewrite Hk, Hself. cbv beta iota. rewrite Hself. reflexivity.
Qed.

Lemma setParent_step (h : heap) (this newParent : ref)
    (self : DependencyContainer) :
  h !! this = Some self →
  setParent this newParent h =
    (Ret (), <[this := mkContainer (dependencies self) (Some newParent)]> h).
Proof.
  intros Hself. unfold setParent, mbind, M_bind, deref, store.
  rewrite Hself. cbv beta iota. rewrite Hself. reflexivity.
Qed.

(** ** Registration and lookup in one container *)

(** What [register] leaves behind: the container's record with the entry
    written, every other record as it was. *)
Lemma register_lookup (h : heap) (this : ref) (K V : jsval) (k : string)
    (self : DependencyContainer) :
  getInjectableKey K h = (Ret k, h) →
  h !! this = Some self →
  ∃ h', register this K V h = (Ret (), h')
    ∧ h' !! this = Some (mkContainer (<[k := V]> (dependencies self)) (parent self))
    ∧ length h' = length h
    ∧ (∀ a, a ≠ this → h' !! a = h !! a)
    ∧ getInjectableKey K h' = (Ret k, h').
Proof.
  intros Hk Hself. eexists. split; [by apply register_step|].
  repeat split.
  - apply list_lookup_insert_eq. by eapply lookup_lt_Some.
  - apply length_insert.
  - intros a Ha. by apply list_lookup_insert_ne.
  - by eapply getInjectableKey_any_heap.
Qed.

(** An entry of the container's own table answers [get] and [has] at once,
    whatever the parent is. *)
Lemma own_entry_found (fuel : nat) (h : heap) (this : ref) (K v : jsval)
    (k : string) (self : DependencyContainer) :
  getInjectableKey K h = (Ret k, h) →
  h !! this = Some self →
  dependencies self !! k = Some v →
  get (S fuel) this K h = (Ret v, h) ∧ has (S fuel) this K h = (Ret true, h).
Proof.
  intros Hk Hself Hv.
  rewrite (get_step _ _ _ _ _ _ Hk Hself), (has_step _ _ _ _ _ _ Hk Hself), Hv.
  done.
Qed.

(** C1: after [R.register(K, V)] with a key that resolves, [R.get(K)]
    returns [V] and [R.has(K)] returns [true], for every container [R] of
    the store and every value [V]. *)
Theorem register_get_has (h : heap) (R : ref) (K V : jsval) (k : string) :
  getInjectableKey K h = (Ret k, h) →
  R < length h →
  ∃ h', register R K V h = (Ret (), h')
    ∧ ∀ fuel, get (S fuel) R K h' = (Ret V, h')
            ∧ has (S fuel) R K h' = (Ret true, h').
Proof.
  intros Hk HR. apply lookup_lt_is_Some_2 in HR as [self Hself].
  destruct (register_lookup h R K V k self Hk Hself)
    as (h' & Hreg & Hself' & _ & _ & Hk').
  exists h'. split; [done|]. intros fuel.
  eapply own_entry_found; [done..|]. simpl. apply lookup_insert_eq.
Qed.

Lemma register_get_has_witness :
  ∃ h', register 0 MyService (VObj 7) root_heap = (Ret (), h')
    ∧ ∀ fuel, get (S fuel) 0 MyService h' = (Ret (VObj 7), h')
            ∧ has (S fuel) 0 MyService h' = (Ret true, h').
Proof.
  apply (register_get_has root_heap 0 MyService (VObj 7) "MyService").
  - reflexivity.
  - simpl. lia.
Defined.

(** C7: registering twice under the same key keeps the last value:
    [get] returns the second value, and the store is the one a single
    registration of the second value would have produced. *)
Theorem register_overwrites (h : heap) (R : ref) (K V1 V2 : jsval) (k : string) :
  getInjectableKey K h = (Ret k, h) →
  R < length h →
  ∃ h1 h2, register R K V1 h = (Ret (), h1)
    ∧ register R K V2 h1 = (Ret (), h2)
    ∧ (∀ fuel, get (S fuel) R K h2 = (Ret V2, h2))
    ∧ register R K V2 h = (Ret (), h2).
Proof.
  intros Hk HR. apply lookup_lt_is_Some_2 in HR as [self Hself].
  destruct (register_lookup h R K V1 k self Hk Hself)
    as (h1 & Hreg1 & Hself1 & _ & _ & Hk1).
  destruct (register_lookup h1 R K V2 k _ Hk1 Hself1)
    as (h2 & Hreg2 & Hself2 & _ & _ & Hk2).
  exists h1, h2. split; [done|]. split; [done|]. split.
  - intros fuel. eapply own_entry_found; [done..|]. simpl. apply lookup_insert_eq.
  - rewrite (register_step _ _ _ _ _ _ Hk Hself).
    rewrite (register_step _ _ _ _ _ _ Hk Hself) in Hreg1.
    rewrite (register_step _ _ _ _ _ _ Hk1 Hself1) in Hreg2.
    injection Hreg1 as <-. injection Hreg2 as <-. simpl.
    by rewrite list_insert_insert_eq, insert_insert_eq.
Qed.

Lemma register_overwrites_witness :
  ∃ h1 h2, register 0 (VStr "Service") (VObj 1) root_heap = (Ret (), h1)
    ∧ register 0 (VStr "Service") (VObj 2) h1 = (Ret (), h2)
    ∧ (∀ fuel, get (S fuel) 0 (VStr "Service") h2 = (Ret (VObj 2), h2))
    ∧ register 0 (VStr "Service") (VObj 2) root_heap = (Ret (), h2).
Proof.
  apply (register_overwrites root_heap 0 (VStr "Service") (VObj 1) (VObj 2) "Service").
  - reflexivity.
  - simpl. lia.
Defined.

(** ** Keys *)

(** C6: a non-empty string resolves to itself, and a type reference
    resolves to the name it declares; a value registered under such a key
    is found again under the same key. *)
Theorem identifier_derivation (h : heap) (R : ref) (K V : jsval) (k : string) :
  k ≠ "" →
  (typeof K = "string" ∧ string_value K = Some k)
  ∨ (typeof K = "function" ∧ function_name K = Some k) →
  R < length h →
  getInjectableKey K h = (Ret k, h)
  ∧ ∃ h', register R K V h = (Ret (), h')
      ∧ ∀ fuel, get (S fuel) R K h' = (Ret V, h')
              ∧ has (S fuel) R K h' = (Ret true, h').
Proof.
  intros Hne HK HR.
  assert (Hk : getInjectableKey K h = (Ret k, h)).
  { apply String.eqb_neq in Hne. unfold getInjectableKey.
    destruct HK as [[Ht Hv] | [Ht Hv]]; rewrite Ht; simpl; rewrite Hv, Hne; done. }
  split; [done|].
  apply lookup_lt_is_Some_2 in HR as [self Hself].
  destruct (register_lookup h R K V k self Hk Hself)
    as (h' & Hreg & Hself' & _ & _ & Hk').
  exists h'. split; [done|]. intros fuel.
  eapply own_entry_found; [done..|]. simpl. apply lookup_insert_eq.
Qed.

Lemma identifier_derivation_witness :
  getInjectableKey MyService root_heap = (Ret "MyService", root_heap)
  ∧ ∃ h', register 0 MyService (VObj 7) root_heap = (Ret (), h')
      ∧ ∀ fuel, get (S fuel) 0 MyService h' = (Ret (VObj 7), h')
              ∧ has (S fuel) 0 MyService h' = (Ret true, h').
Proof.
  apply (identifier_derivation root_heap 0 MyService (VObj 7) "MyService").
  - discriminate.
  - right. split; reflexivity.
  - simpl. lia.
Defined.

(** The keys that resolve are exactly the non-empty strings and the type
    references with a non-empty name. *)
Lemma getInjectableKey_Ret_iff (K : jsval) (k : string) (h : heap) :
  getInjectableKey K h = (Ret k, h)
  ↔ k ≠ "" ∧ (K = VStr k ∨ ∃ fid, K = VFun k fid).
Proof.
  split.
  - intros H. apply getInjectableKey_Ret in H. tauto.
  - intros (Hne & HK). apply String.eqb_neq in Hne. unfold getInjectableKey.
    destruct HK as [-> | [fid ->]]; simpl; rewrite Hne; done.
Qed.

(** C5: resolution of the empty string, and of a value that is neither a
    string nor a type reference with a non-empty name, throws the error
    with message "Cannot get key for injectable."; [register], [get],
    [require] and [has] pass the same error on; the store is the one the
    call started with, and resolution never changes the store. *)
Theorem invalid_key_error (h : heap) (K : jsval) :
  K = VStr ""
  ∨ (typeof K ≠ "string"
     ∧ ¬ (typeof K = "function" ∧ function_name K ≠ Some "")) →
  let E := Error "Cannot get key for injectable." in
  getInjectableKey K h = (Throw E, h)
  ∧ (∀ R V, register R K V h = (Throw E, h))
  ∧ (∀ R fuel, get (S fuel) R K h = (Throw E, h))
  ∧ (∀ R fuel, require (S fuel) R K h = (Throw E, h))
  ∧ (∀ R fuel, has (S fuel) R K h = (Throw E, h))
  ∧ (∀ K' h', (getInjectableKey K' h').2 = h').
Proof.
  intros HK E.
  assert (Hk : getInjectableKey K h = (Throw E, h)).
  { destruct HK as [-> | [Hs Hf]]; [reflexivity|].
    destruct K as [| | b | n | s | name fid | oid]; try reflexivity.
    - by destruct Hs.
    - destruct (decide (name = "")) as [-> | Hname]; [reflexivity|].
      destruct Hf. split; [reflexivity|]. simpl. congruence. }
  split; [done|]. split; [|split; [|split; [|split]]].
  - intros R V. unfold register, mbind, M_bind. by rewrite Hk.
  - intros R fuel. simpl. unfold mbind, M_bind. by rewrite Hk.
  - intros R fuel. unfold require. simpl. unfold mbind, M_bind. by rewrite Hk.
  - intros R fuel. simpl. unfold mbind, M_bind. by rewrite Hk.
  - intros K' h'. destruct (getInjectableKey_cases K' h') as [[k' ->] | ->]; done.
Qed.

Lemma invalid_key_error_witness :
  let E := Error "Cannot get key for injectable." in
  getInjectableKey (VNum 42) root_heap = (Throw E, root_heap)
  ∧ (∀ R V, register R (VNum 42) V root_heap = (Throw E, root_heap))
  ∧ (∀ R fuel, get (S fuel) R (VNum 42) root_heap = (Throw E, root_heap))
  ∧ (∀ R fuel, require (S fuel) R (VNum 42) root_heap = (Throw E, root_heap))
  ∧ (∀ R fuel, has (S fuel) R (VNum 42) root_heap = (Throw E, root_heap))
  ∧ (∀ K' h', (getInjectableKey K' h').2 = h').
Proof.
  apply (invalid_key_error root_heap (VNum 42)).
  right. split.
  - discriminate.
  - intros [Ht _]. discriminate.
Defined.

(** The invalid keys of the test suite and of the documentation: the empty
    string, a number, [null], and a class without a name. *)
Example invalid_key_samples :
  let E := Error "Cannot get key for injectable." in
  getInjectableKey (VStr "") root_heap = (Throw E, root_heap)
  ∧ getInjectableKey (VNum 42) root_heap = (Throw E, root_heap)
  ∧ getInjectableKey VNull root_heap = (Throw E, root_heap)
  ∧ getInjectableKey (VFun "" 3) root_heap = (Throw E, root_heap).
Proof. repeat split. Qed.

(** ** Misses *)

(** A miss in a container without parent. *)
Lemma root_miss (h : heap) (R : ref) (K : jsval) (k : string)
    (self : DependencyContainer) (fuel : nat) :
  getInjectableKey K h = (Ret k, h) →
  h !! R = Some self →
  parent self = None →
  dependencies self !! k = None →
  get (S fuel) R K h = (Ret VUndefined, h)
  ∧ has (S fuel) R K h = (Ret false, h)
  ∧ require (S fuel) R K h
    = (Throw (Error ("Required dependency '" ++ k ++ "' not found in container")), h).
Proof.
  intros Hk Hself Hroot Hmiss.
  assert (Hget : get (S fuel) R K h = (Ret VUndefined, h)).
  { by rewrite (get_step _ _ _ _ _ _ Hk Hself), Hmiss, Hroot. }
  split; [done|]. split.
  - by rewrite (has_step _ _ _ _ _ _ Hk Hself), Hmiss, Hroot.
  - rewrite (require_step _ _ _ _ _ Hk), Hget.
    rewrite decide_True by done. by rewrite Hk.
Qed.

(** [require] hands on what [get] returns, unless it is [undefined]. *)
Lemma require_found (h : heap) (R : ref) (K v : jsval) (k : string) (fuel : nat) :
  getInjectableKey K h = (Ret k, h) →
  get fuel R K h = (Ret v, h) →
  v ≠ VUndefined →
  require fuel R K h = (Ret v, h).
Proof.
  intros Hk Hget Hv.
  rewrite (require_step _ _ _ _ _ Hk), Hget. by rewrite decide_False.
Qed.

(** C4: in a container without parent, [get] of a key that resolves and is
    not registered returns [undefined], and [require] throws the error
    "Required dependency '<identifier>' not found in container"; whenever
    [get] returns a value other than [undefined], [require] returns it. *)
Theorem miss_semantics (h : heap) (R : ref) (K : jsval) (k : string)
    (self : DependencyContainer) (fuel : nat) :
  getInjectableKey K h = (Ret k, h) →
  h !! R = Some self →
  (parent self = None →
   dependencies self !! k = None →
   get (S fuel) R K h = (Ret VUndefined, h)
   ∧ require (S fuel) R K h
     = (Throw (Error ("Required dependency '" ++ k ++ "' not found in container")), h))
  ∧ (∀ v, get (S fuel) R K h = (Ret v, h) →
          v ≠ VUndefined →
          require (S fuel) R K h = (Ret v, h)).
Proof.
  intros Hk Hself. split.
  - intros Hroot Hmiss.
    destruct (root_miss h R K k self fuel Hk Hself Hroot Hmiss) as (? & _ & ?).
    done.
  - intros v Hget Hv. by eapply require_found.
Qed.

Lemma miss_semantics_witness :
  (get 1 0 (VStr "NonExistent") root_heap = (Ret VUndefined, root_heap)
   ∧ require 1 0 (VStr "NonExistent") root_heap
     = (Throw (Error "Required dependency 'NonExistent' not found in container"),
        root_heap))
  ∧ require 1 0 (VStr "Service") service_heap = (Ret (VObj 1), service_heap).
Proof.
  split.
  - apply (proj1 (miss_semantics root_heap 0 (VStr "NonExistent") "NonExistent"
                    (mkContainer ∅ None) 0 eq_refl eq_refl)).
    + reflexivity.
    + vm_compute. reflexivity.
  - apply (proj2 (miss_semantics service_heap 0 (VStr "Service") "Service"
                    (mkContainer {[ "Service" := VObj 1 ]} None) 0 eq_refl eq_refl)).
    + vm_compute. reflexivity.
    + discriminate.
Defined.

(** C10: a key registered with the value [undefined] is present for [has]
    and returns [undefined] from [get], and [require] throws the not-found
    error for it; [get] and [require] answer as they do when the key was
    never registered, only [has] tells the two apart. *)
Theorem registered_undefined (h : heap) (R : ref) (K : jsval) (k : string)
    (self : DependencyContainer) (fuel : nat) :
  getInjectableKey K h = (Ret k, h) →
  h !! R = Some self →
  let E := Error ("Required dependency '" ++ k ++ "' not found in container") in
  ∃ h', register R K VUndefined h = (Ret (), h')
    ∧ has (S fuel) R K h' = (Ret true, h')
    ∧ get (S fuel) R K h' = (Ret VUndefined, h')
    ∧ require (S fuel) R K h' = (Throw E, h')
    ∧ (parent self = None →
       dependencies self !! k = None →
       has (S fuel) R K h = (Ret false, h)
       ∧ get (S fuel) R K h = (Ret VUndefined, h)
       ∧ require (S fuel) R K h = (Throw E, h)).
Proof.
  intros Hk Hself E.
  destruct (register_lookup h R K VUndefined k self Hk Hself)
    as (h' & Hreg & Hself' & _ & _ & Hk').
  assert (Hown : dependencies
            (mkContainer (<[k := VUndefined]> (dependencies self)) (parent self)) !! k
          = Some VUndefined) by apply lookup_insert_eq.
  destruct (own_entry_found fuel h' R K VUndefined k _ Hk' Hself' Hown)
    as [Hget Hhas].
  exists h'. split; [done|]. split; [done|]. split; [done|]. split.
  - rewrite (require_step _ _ _ _ _ Hk'), Hget.
    rewrite decide_True by done. by rewrite Hk'.
  - intros Hroot Hmiss.
    destruct (root_miss h R K k self fuel Hk Hself Hroot Hmiss) as (? & ? & ?).
    done.
Qed.

Lemma registered_undefined_witness :
  ∃ h', register 0 (VStr "Service") VUndefined root_heap = (Ret (), h')
    ∧ has 1 0 (VStr "Service") h' = (Ret true, h')
    ∧ get 1 0 (VStr "Service") h' = (Ret VUndefined, h')
    ∧ require 1 0 (VStr "Service") h'
      = (Throw (Error "Required dependency 'Service' not found in container"), h')
    ∧ (parent (mkContainer ∅ None) = None →
       dependencies (mkContainer ∅ None) !! "Service" = None →
       has 1 0 (VStr "Service") root_heap = (Ret false, root_heap)
       ∧ get 1 0 (VStr "Service") root_heap = (Ret VUndefined, root_heap)
       ∧ require 1 0 (VStr "Service") root_heap
         = (Throw (Error "Required dependency 'Service' not found in container"),
            root_heap)).
Proof.
  apply (registered_undefined root_heap 0 (VStr "Service") "Service"
           (mkContainer ∅ None) 0); reflexivity.
Defined.

(** ** Reads leave the store alone *)

Lemma get_unfold (fuel : nat) (h : heap) (this : ref) (K : jsval) :
  get (S fuel) this K h =
    match getInjectableKey K h with
    | (Ret k, _) =>
        match h !! this with
        | Some self =>
            match dependencies self !! k with
            | Some v => (Ret v, h)
            | None =>
                match parent self with
                | Some p => get fuel p K h
                | None => (Ret VUndefined, h)
                end
            end
        | None => (Stuck, h)
        end
    | (_, _) => (Throw (Error "Cannot get key for injectable."), h)
    end.
Proof.
  destruct (getInjectableKey_cases K h) as [[k Hk] | Hk]; rewrite Hk.
  - destruct (h !! this) as [self|] eqn:Hself.
    + by apply get_step.
    + simpl. unfold mbind, M_bind, deref. by rewrite Hk, Hself.
  - simpl. unfold mbind, M_bind. by rewrite Hk.
Qed.

Lemma has_unfold (fuel : nat) (h : heap) (this : ref) (K : jsval) :
  has (S fuel) this K h =
    match getInjectableKey K h with
    | (Ret k, _) =>
        match h !! this with
        | Some self =>
            match dependencies self !! k with
            | Some _ => (Ret true, h)
            | None =>
                match parent self with
                | Some p => has fuel p (VStr k) h
                | None => (Ret false, h)
                end
            end
        | None => (Stuck, h)
        end
    | (_, _) => (Throw (Error "Cannot get key for injectable."), h)
    end.
Proof.
  destruct (getInjectableKey_cases K h) as [[k Hk] | Hk]; rewrite Hk.
  - destruct (h !! this) as [self|] eqn:Hself.
    + by apply has_step.
    + simpl. unfold mbind, M_bind, deref. by rewrite Hk, Hself.
  - simpl. unfold mbind, M_bind. by rewrite Hk.
Qed.

(** [get] is a pure read. *)
Lemma get_heap (fuel : nat) (h : heap) (this : ref) (K : jsval) :
  (get fuel this K h).2 = h.
Proof.
  revert this. induction fuel as [|fuel IH]; intros this; [done|].
  rewrite get_unfold.
  destruct (getInjectableKey K h) as [[k | e | |] h0]; try done.
  destruct (h !! this) as [self|]; [|done].
  destruct (dependencies self !! k); [done|].
  destruct (parent self); [apply IH | done].
Qed.

(** [has] is a pure read. *)
Lemma has_heap (fuel : nat) (h : heap) (this : ref) (K : jsval) :
  (has fuel this K h).2 = h.
Proof.
  revert this K. induction fuel as [|fuel IH]; intros this K; [done|].
  rewrite has_unfold.
  destruct (getInjectableKey K h) as [[k | e | |] h0]; try done.
  destruct (h !! this) as [self|]; [|done].
  destruct (dependencies self !! k); [done|].
  destruct (parent self); [apply IH | done].
Qed.

(** [require] is a pure read. *)
Lemma require_heap (fuel : nat) (h : heap) (this : ref) (K : jsval) :
  (require fuel this K h).2 = h.
Proof.
  unfold require, mbind, M_bind.
  pose proof (get_heap fuel h this K) as Hg.
  destruct (get fuel this K h) as [[v | e | |] h']; simpl in Hg; subst h'; try done.
  destruct (decide (v = VUndefined)); [|done].
  destruct (getInjectableKey_cases K h) as [[k ->] | ->]; done.
Qed.

(** ** Frame: a lookup only reads the records of its chain *)

Section frame.
Variables (h h' : heap) (inside : ref → Prop).
Hypothesis agree : ∀ b, inside b → h' !! b = h !! b.
Hypothesis closed :
  ∀ b c p, inside b → h !! b = Some c → parent c = Some p → inside p.

Lemma get_frame (fuel : nat) (a : ref) (K : jsval) :
  inside a → (get fuel a K h').1 = (get fuel a K h).1.
Proof.
  revert a. induction fuel as [|fuel IH]; intros a Ha; [done|].
  rewrite !get_unfold, (agree a Ha).
  destruct (getInjectableKey_cases K h) as [[k Hk] | Hk].
  - rewrite Hk, (getInjectableKey_any_heap _ _ _ h' Hk).
    destruct (h !! a) as [self|] eqn:Hself; [|done].
    destruct (dependencies self !! k); [done|].
    destruct (parent self) as [p|] eqn:Hp; [|done].
    apply IH. by eapply closed.
  - rewrite Hk. destruct (getInjectableKey_cases K h') as [[k' Hk'] | Hk'].
    + apply (getInjectableKey_any_heap _ _ _ h) in Hk'. congruence.
    + by rewrite Hk'.
Qed.

Lemma has_frame (fuel : nat) (a : ref) (K : jsval) :
  inside a → (has fuel a K h').1 = (has fuel a K h).1.
Proof.
  revert a K. induction fuel as [|fuel IH]; intros a K Ha; [done|].
  rewrite !has_unfold, (agree a Ha).
  destruct (getInjectableKey_cases K h) as [[k Hk] | Hk].
  - rewrite Hk, (getInjectableKey_any_heap _ _ _ h' Hk).
    destruct (h !! a) as [self|] eqn:Hself; [|done].
    destruct (dependencies self !! k); [done|].
    destruct (parent self) as [p|] eqn:Hp; [|done].
    apply IH. by eapply closed.
  - rewrite Hk. destruct (getInjectableKey_cases K h') as [[k' Hk'] | Hk'].
    + apply (getInjectableKey_any_heap _ _ _ h) in Hk'. congruence.
    + by rewrite Hk'.
Qed.

Lemma require_frame (fuel : nat) (a : ref) (K : jsval) :
  inside a → (require fuel a K h').1 = (require fuel a K h).1.
Proof.
  intros Ha. unfold require, mbind, M_bind.
  pose proof (get_frame fuel a K Ha) as Hf.
  pose proof (get_heap fuel h a K) as Hh.
  pose proof (get_heap fuel h' a K) as Hh'.
  destruct (get fuel a K h) as [[v | e | |] g];
    destruct (get fuel a K h') as [[v' | e' | |] g'];
    simpl in *; subst; try done; try congruence.
  injection Hf as ->.
  destruct (decide (v = VUndefined)); [|done].
  destruct (getInjectableKey_cases K h) as [[k Hk] | Hk].
  - by rewrite Hk, (getInjectableKey_any_heap _ _ _ h' Hk).
  - rewrite Hk. destruct (getInjectableKey_cases K h') as [[k' Hk'] | Hk'].
    + apply (getInjectableKey_any_heap _ _ _ h) in Hk'. congruence.
    + by rewrite Hk'.
Qed.
End frame.

(** ** Well-formed stores *)

Lemma heap_wf_spec (h : heap) :
  heap_wf h = true
  ↔ ∀ a c p, h !! a = Some c → parent c = Some p → p < length h.
Proof.
  unfold heap_wf. rewrite forallb_forall. split.
  - intros H a c p Ha Hp.
    specialize (H c). rewrite Hp in H. apply (bool_decide_eq_true_1 _), H.
    apply list_elem_of_In. by eapply list_elem_of_lookup_2.
  - intros H c Hc. apply list_elem_of_In, list_elem_of_lookup_1 in Hc as [a Ha].
    destruct (parent c) as [p|] eqn:Hp; [|done].
    apply bool_decide_eq_true_2. by eapply H.
Qed.

(** ** Children *)

(** [extend] allocates: the child is a reference that was not in the store,
    its record has an empty table and [this] as parent, and no existing
    record changes. *)
Lemma extend_spec (h : heap) (this : ref) :
  ∃ child h', extend this h = (Ret child, h')
    ∧ child = length h
    ∧ h !! child = None
    ∧ h' !! child = Some (mkContainer ∅ (Some this))
    ∧ length h' = S (length h)
    ∧ (∀ a, a ≠ child → h' !! a = h !! a).
Proof.
  exists (length h), (h ++ [mkContainer ∅ (Some this)])%list.
  split; [done|]. split; [done|]. split; [by apply lookup_ge_None_2|].
  split; [by rewrite list_lookup_middle|].
  split; [rewrite length_app; simpl; lia|].
  intros a Ha. destruct (decide (a < length h)) as [Hlt | Hge].
  - by apply lookup_app_l.
  - rewrite !lookup_ge_None_2; [done | lia |].
    rewrite length_app. simpl. lia.
Qed.

(** A miss in the own table hands the lookup to the parent. *)
Lemma get_delegates (fuel : nat) (h : heap) (this p : ref) (K : jsval)
    (k : string) (self : DependencyContainer) :
  getInjectableKey K h = (Ret k, h) →
  h !! this = Some self →
  dependencies self !! k = None →
  parent self = Some p →
  get (S fuel) this K h = get fuel p K h
  ∧ has (S fuel) this K h = has fuel p (VStr k) h
  ∧ require (S fuel) this K h = require fuel p K h.
Proof.
  intros Hk Hself Hmiss Hp.
  assert (Hget : get (S fuel) this K h = get fuel p K h).
  { by rewrite (get_step _ _ _ _ _ _ Hk Hself), Hmiss, Hp. }
  split; [done|]. split.
  - by rewrite (has_step _ _ _ _ _ _ Hk Hself), Hmiss, Hp.
  - by rewrite !(require_step _ _ _ _ _ Hk), Hget.
Qed.

(** C3: a value registered on the parent is visible from a child made by
    [extend]; the child is a new container with an empty table whose
    parent is the extended container, and a lookup that misses in the own
    table of a container with a parent is the parent's lookup. *)
Theorem parent_fallback (h : heap) (P : ref) (K V : jsval) (k : string) :
  getInjectableKey K h = (Ret k, h) →
  P < length h →
  ∃ h1 child h2,
    register P K V h = (Ret (), h1)
    ∧ extend P h1 = (Ret child, h2)
    ∧ h1 !! child = None
    ∧ h2 !! child = Some (mkContainer ∅ (Some P))
    ∧ (∀ a, a ≠ child → h2 !! a = h1 !! a)
    ∧ (∀ fuel, get (S (S fuel)) child K h2 = (Ret V, h2)
             ∧ has (S (S fuel)) child K h2 = (Ret true, h2))
    ∧ (∀ g this self p K' k' fuel,
         getInjectableKey K' g = (Ret k', g) →
         g !! this = Some self →
         dependencies self !! k' = None →
         parent self = Some p →
         get (S fuel) this K' g = get fuel p K' g).
Proof.
  intros Hk HP. apply lookup_lt_is_Some_2 in HP as [self Hself].
  destruct (register_lookup h P K V k self Hk Hself)
    as (h1 & Hreg & Hself1 & Hlen1 & _ & Hk1).
  destruct (extend_spec h1 P) as (child & h2 & Hext & -> & Hnew & Hchild & _ & Hold).
  exists h1, (length h1), h2. repeat (split; [done|]). split.
  - intros fuel.
    assert (Hk2 : getInjectableKey K h2 = (Ret k, h2))
      by by eapply getInjectableKey_any_heap.
    assert (HP2 : h2 !! P = Some (mkContainer (<[k := V]> (dependencies self))
                                              (parent self))).
    { rewrite Hold; [done|]. apply lookup_lt_Some in Hself1. lia. }
    destruct (get_delegates (S fuel) h2 (length h1) P K k _ Hk2 Hchild)
      as (-> & -> & _); [apply lookup_empty | done |].
    split.
    + eapply own_entry_found; [done..|]. apply lookup_insert_eq.
    + eapply own_entry_found; [by eapply getInjectableKey_resolved | done |].
      apply lookup_insert_eq.
  - intros g this self' p K' k' fuel Hk' Hthis Hmiss Hp.
    by eapply get_delegates.
Qed.

Lemma parent_fallback_witness :
  ∃ h1 child h2,
    register 0 (VStr "ParentService") (VObj 1) root_heap = (Ret (), h1)
    ∧ extend 0 h1 = (Ret child, h2)
    ∧ h1 !! child = None
    ∧ h2 !! child = Some (mkContainer ∅ (Some 0))
    ∧ (∀ a, a ≠ child → h2 !! a = h1 !! a)
    ∧ (∀ fuel, get (S (S fuel)) child (VStr "ParentService") h2 = (Ret (VObj 1), h2)
             ∧ has (S (S fuel)) child (VStr "ParentService") h2 = (Ret true, h2))
    ∧ (∀ g this self p K' k' fuel,
         getInjectableKey K' g = (Ret k', g) →
         g !! this = Some self →
         dependencies self !! k' = None →
         parent self = Some p →
         get (S fuel) this K' g = get fuel p K' g).
Proof.
  apply (parent_fallback root_heap 0 (VStr "ParentService") (VObj 1) "ParentService").
  - reflexivity.
  - simpl. lia.
Defined.

(** Sequencing after a call that returns. *)
Lemma bind_Ret {A B : Type} (m : M A) (f : A → M B) (h h' : heap) (a : A) :
  m h = (Ret a, h') → (m ≫= f) h = f a h'.
Proof. intros H. unfold mbind, M_bind. by rewrite H. Qed.

(** [register] keeps a store well formed. *)
Lemma register_wf (h h' : heap) (this : ref) (K V : jsval) :
  heap_wf h = true →
  register this K V h = (Ret (), h') →
  heap_wf h' = true.
Proof.
  intros Hwf Hreg.
  destruct (getInjectableKey_cases K h) as [[k Hk] | Hk];
    [|unfold register, mbind, M_bind in Hreg; by rewrite Hk in Hreg].
  destruct (h !! this) as [self|] eqn:Hself.
  - destruct (register_lookup h this K V k self Hk Hself)
      as (h'' & Hreg' & Hthis & Hlen & Hold & _).
    rewrite Hreg in Hreg'. injection Hreg' as <-.
    apply heap_wf_spec. intros a c p Ha Hp. rewrite Hlen.
    rewrite heap_wf_spec in Hwf.
    destruct (decide (a = this)) as [-> | Hne].
    + rewrite Hthis in Ha. injection Ha as <-. by eapply Hwf.
    + rewrite Hold in Ha by done. by eapply Hwf.
  - unfold register, dependencies_set, mbind, M_bind, deref in Hreg.
    by rewrite Hk, Hself in Hreg.
Qed.

(** C2: with [child = parent.extend()], [parent.register(K, V1)] and
    [child.register(K, V2)] in any order, [child.get(K)] is [V2] and
    [parent.get(K)] is [V1]; the records of the containers that existed
    before the child are those [parent.register] alone leaves, every
    lookup on them answers as without the child, and an entry of a
    container's own table is returned whatever its parents hold. *)
Theorem child_precedence (h : heap) (P : ref) (K V1 V2 : jsval) (k : string) :
  heap_wf h = true →
  getInjectableKey K h = (Ret k, h) →
  P < length h →
  ∃ h1 child h',
    register P K V1 h = (Ret (), h1)
    ∧ (register P K V1;; c ← extend P; register c K V2;; mret c) h
      = (Ret child, h')
    ∧ (c ← extend P; register P K V1;; register c K V2;; mret c) h
      = (Ret child, h')
    ∧ (c ← extend P; register c K V2;; register P K V1;; mret c) h
      = (Ret child, h')
    ∧ (∀ fuel, get (S fuel) child K h' = (Ret V2, h')
             ∧ get (S fuel) P K h' = (Ret V1, h'))
    ∧ (∀ a, a < length h → h' !! a = h1 !! a)
    ∧ (∀ a K' fuel, a < length h →
         get fuel a K' h' = ((get fuel a K' h1).1, h')
         ∧ has fuel a K' h' = ((has fuel a K' h1).1, h'))
    ∧ (∀ g this self K' k' v fuel,
         getInjectableKey K' g = (Ret k', g) →
         g !! this = Some self →
         dependencies self !! k' = Some v →
         get (S fuel) this K' g = (Ret v, g)).
Proof.
  intros Hwf Hk HP.
  pose proof HP as HP'. apply lookup_lt_is_Some_2 in HP' as [self Hself].
  set (cP := mkContainer (<[k := V1]> (dependencies self)) (parent self)).
  set (c0 := mkContainer ∅ (Some P)).
  set (cC := mkContainer (<[k := V2]> ∅) (Some P)).
  set (child := length h).
  set (h1 := <[P := cP]> h).
  set (h' := <[child := cC]> (h1 ++ [c0])%list).
  assert (Hreg1 : register P K V1 h = (Ret (), h1)) by by apply register_step.
  assert (Hlen1 : length h1 = length h) by apply length_insert.
  assert (Hany : ∀ g, getInjectableKey K g = (Ret k, g))
    by (intros g; by eapply getInjectableKey_any_heap).
  assert (Hc0 : ∀ g : heap, length g = length h → (g ++ [c0])%list !! child = Some c0).
  { intros g Hg. subst child. rewrite <- Hg. apply list_lookup_middle. done. }
  assert (HregC : ∀ g : heap, length g = length h →
            register child K V2 (g ++ [c0])%list
            = (Ret (), <[child := cC]> (g ++ [c0])%list)).
  { intros g Hg. by rewrite (register_step _ _ _ _ _ _ (Hany _) (Hc0 g Hg)). }
  assert (Hext : ∀ g : heap, length g = length h →
            extend P g = (Ret child, (g ++ [c0])%list)).
  { intros g Hg. unfold extend, new_DependencyContainer. by rewrite Hg. }
  assert (HregP : register P K V1 (h ++ [c0])%list = (Ret (), (h1 ++ [c0])%list)).
  { rewrite (register_step _ _ _ _ _ self (Hany _)) by by apply lookup_app_l_Some.
    subst h1. by rewrite insert_app_l. }
  assert (HregP' : register P K V1 (<[child := cC]> (h ++ [c0])%list) = (Ret (), h')).
  { assert (P ≠ child) by (subst child; lia).
    rewrite (register_step _ _ _ _ _ self (Hany _)).
    - subst h' h1. rewrite list_insert_insert_ne by done.
      by rewrite insert_app_l by done.
    - rewrite list_lookup_insert_ne by done. by apply lookup_app_l_Some. }
  assert (Hchild' : h' !! child = Some cC).
  { subst h'. apply list_lookup_insert_eq. rewrite length_app, Hlen1. simpl.
    subst child. lia. }
  assert (Hold : ∀ a, a < length h → h' !! a = h1 !! a).
  { intros a Ha. subst h'. rewrite list_lookup_insert_ne by (subst child; lia).
    apply lookup_app_l. lia. }
  assert (HP1 : h1 !! P = Some cP) by by apply list_lookup_insert_eq.
  exists h1, child, h'. split; [done|]. split; [|split; [|split]].
  - rewrite (bind_Ret _ _ _ _ _ Hreg1), (bind_Ret _ _ _ _ _ (Hext h1 Hlen1)).
    by rewrite (bind_Ret _ _ _ _ _ (HregC h1 Hlen1)).
  - rewrite (bind_Ret _ _ _ _ _ (Hext h eq_refl)), (bind_Ret _ _ _ _ _ HregP).
    by rewrite (bind_Ret _ _ _ _ _ (HregC h1 Hlen1)).
  - rewrite (bind_Ret _ _ _ _ _ (Hext h eq_refl)).
    rewrite (bind_Ret _ _ _ _ _ (HregC h eq_refl)).
    by rewrite (bind_Ret _ _ _ _ _ HregP').
  - split; [|split; [done|split]].
    + intros fuel. split.
      * eapply own_entry_found; [done..|]. apply lookup_insert_eq.
      * eapply own_entry_found; [done | by rewrite Hold |]. apply lookup_insert_eq.
    + intros a K' fuel Ha.
      assert (Hclosed : ∀ b c p, b < length h → h1 !! b = Some c →
                parent c = Some p → p < length h).
      { intros b c p _ Hb Hp. rewrite <- Hlen1.
        pose proof (register_wf _ _ _ _ _ Hwf Hreg1) as Hwf1.
        rewrite heap_wf_spec in Hwf1. by eapply Hwf1. }
      pose proof (get_frame h1 h' (λ b, b < length h) Hold Hclosed fuel a K' Ha) as Hg.
      pose proof (has_frame h1 h' (λ b, b < length h) Hold Hclosed fuel a K' Ha) as Hs.
      pose proof (get_heap fuel h' a K') as Hgh.
      pose proof (has_heap fuel h' a K') as Hsh.
      destruct (get fuel a K' h') as [og hg]. destruct (has fuel a K' h') as [os hs].
      simpl in *. by subst.
    + intros g this self' K' k' v fuel Hk' Hthis Hv.
      by eapply own_entry_found.
Qed.

Lemma child_precedence_witness :
  ∃ h1 child h',
    register 0 (VStr "Service") (VObj 1) root_heap = (Ret (), h1)
    ∧ (register 0 (VStr "Service") (VObj 1);; c ← extend 0;
       register c (VStr "Service") (VObj 2);; mret c) root_heap
      = (Ret child, h')
    ∧ (c ← extend 0; register 0 (VStr "Service") (VObj 1);;
       register c (VStr "Service") (VObj 2);; mret c) root_heap
      = (Ret child, h')
    ∧ (c ← extend 0; register c (VStr "Service") (VObj 2);;
       register 0 (VStr "Service") (VObj 1);; mret c) root_heap
      = (Ret child, h')
    ∧ (∀ fuel, get (S fuel) child (VStr "Service") h' = (Ret (VObj 2), h')
             ∧ get (S fuel) 0 (VStr "Service") h' = (Ret (VObj 1), h'))
    ∧ (∀ a, a < length root_heap → h' !! a = h1 !! a)
    ∧ (∀ a K' fuel, a < length root_heap →
         get fuel a K' h' = ((get fuel a K' h1).1, h')
         ∧ has fuel a K' h' = ((has fuel a K' h1).1, h'))
    ∧ (∀ g this self K' k' v fuel,
         getInjectableKey K' g = (Ret k', g) →
         g !! this = Some self →
         dependencies self !! k' = Some v →
         get (S fuel) this K' g = (Ret v, g)).
Proof.
  apply (child_precedence root_heap 0 (VStr "Service") (VObj 1) (VObj 2) "Service").
  - reflexivity.
  - reflexivity.
  - simpl. lia.
Defined.

(** ** Re-parenting *)

(** C8: [setParent] writes the parent reference and nothing else: the
    container keeps its own table, every other record is unchanged, and
    from then on a lookup that misses in the own table is the lookup of
    the new parent. *)
Theorem setParent_frame (h : heap) (R N : ref) (self : DependencyContainer) :
  h !! R = Some self →
  ∃ h', setParent R N h = (Ret (), h')
    ∧ h' !! R = Some (mkContainer (dependencies self) (Some N))
    ∧ (∀ a, a ≠ R → h' !! a = h !! a)
    ∧ (∀ K k fuel,
         getInjectableKey K h' = (Ret k, h') →
         match dependencies self !! k with
         | Some v =>
             get (S fuel) R K h' = (Ret v, h')
             ∧ has (S fuel) R K h' = (Ret true, h')
         | None =>
             get (S fuel) R K h' = get fuel N K h'
             ∧ has (S fuel) R K h' = has fuel N (VStr k) h'
             ∧ require (S fuel) R K h' = require fuel N K h'
         end).
Proof.
  intros Hself. eexists. split; [by apply setParent_step|].
  set (h' := <[R := _]> h).
  assert (HR : h' !! R = Some (mkContainer (dependencies self) (Some N))).
  { apply list_lookup_insert_eq. by eapply lookup_lt_Some. }
  split; [done|]. split.
  - intros a Ha. by apply list_lookup_insert_ne.
  - intros K k fuel Hk.
    destruct (dependencies self !! k) as [v|] eqn:Hv.
    + by eapply own_entry_found.
    + by eapply get_delegates.
Qed.

Lemma setParent_frame_witness :
  ∃ h', setParent 2 1 two_parents_heap = (Ret (), h')
    ∧ h' !! 2 = Some (mkContainer ∅ (Some 1))
    ∧ (∀ a, a ≠ 2 → h' !! a = two_parents_heap !! a)
    ∧ (∀ K k fuel,
         getInjectableKey K h' = (Ret k, h') →
         match (∅ : gmap string jsval) !! k with
         | Some v =>
             get (S fuel) 2 K h' = (Ret v, h')
             ∧ has (S fuel) 2 K h' = (Ret true, h')
         | None =>
             get (S fuel) 2 K h' = get fuel 1 K h'
             ∧ has (S fuel) 2 K h' = has fuel 1 (VStr k) h'
             ∧ require (S fuel) 2 K h' = require fuel 1 K h'
         end).
Proof.
  apply (setParent_frame two_parents_heap 2 1 (mkContainer ∅ (Some 0))).
  reflexivity.
Defined.

(** The fallback result changes with the parent: the test "should allow
    changing parent container". *)
Example setParent_changes_fallback :
  get 2 2 (VStr "Service") two_parents_heap = (Ret (VObj 1), two_parents_heap)
  ∧ (setParent 2 1;; get 2 2 (VStr "Service")) two_parents_heap
    = (Ret (VObj 2),
       [ mkContainer {[ "Service" := VObj 1 ]} None;
         mkContainer {[ "Service" := VObj 2 ]} None;
         mkContainer ∅ (Some 1) ]).
Proof. split; vm_compute; reflexivity. Qed.

(** ** Termination *)

(** A chain that reaches a root within [n] links is walked by [n + 1]
    calls. *)
Lemma get_terminates (h : heap) (K : jsval) (k : string) (n : nat) :
  getInjectableKey K h = (Ret k, h) →
  ∀ a fuel, reaches_root h n a = true → n < fuel →
    ∃ v, get fuel a K h = (Ret v, h).
Proof.
  intros Hk. induction n as [|n IH]; intros a fuel Hroot Hfuel;
    (destruct fuel as [|fuel]; [lia|]);
    simpl in Hroot; destruct (h !! a) as [self|] eqn:Hself; try done;
    rewrite (get_step _ _ _ _ _ _ Hk Hself);
    (destruct (dependencies self !! k) as [v|]; [by eexists|]);
    (destruct (parent self) as [p|]; [|by eexists]); [done|].
  apply IH; [done | lia].
Qed.

Lemma has_terminates (h : heap) (k : string) (n : nat) :
  k ≠ "" →
  ∀ K a fuel, getInjectableKey K h = (Ret k, h) →
    reaches_root h n a = true → n < fuel →
    ∃ b, has fuel a K h = (Ret b, h).
Proof.
  intros Hne. induction n as [|n IH]; intros K a fuel Hk Hroot Hfuel;
    (destruct fuel as [|fuel]; [lia|]);
    simpl in Hroot; destruct (h !! a) as [self|] eqn:Hself; try done;
    rewrite (has_step _ _ _ _ _ _ Hk Hself);
    (destruct (dependencies self !! k) as [v|]; [by eexists|]);
    (destruct (parent self) as [p|]; [|by eexists]); [done|].
  apply IH; [by eapply getInjectableKey_resolved | done | lia].
Qed.

(** ** Cycles *)

Lemma ancestor_S_r (h : heap) (n : nat) (a : ref) :
  ancestor h (S n) a =
    match ancestor h n a with
    | Some b => ancestor h 1 b
    | None => None
    end.
Proof.
  revert a. induction n as [|n IH]; intros a; [done|].
  change (ancestor h (S (S n)) a) with
    (match h !! a with
     | Some c => match parent c with
                 | Some p => ancestor h (S n) p
                 | None => None
                 end
     | None => None
     end).
  simpl (ancestor h (S n) a).
  destruct (h !! a) as [c|]; [|done].
  destruct (parent c) as [p|]; [|done].
  apply IH.
Qed.

(** The parent of a container on such a cycle is on it as well. *)
Lemma cycle_parent (h : heap) (k : string) (n : nat) (a : ref) :
  on_missing_cycle h k n a →
  ∃ c p, h !! a = Some c ∧ parent c = Some p ∧ dependencies c !! k = None
         ∧ on_missing_cycle h k n p.
Proof.
  intros [Hcyc Hmiss].
  pose proof Hcyc as Hcyc'. simpl in Hcyc'.
  destruct (h !! a) as [c|] eqn:Hc; [|done].
  destruct (parent c) as [p|] eqn:Hp; [|done].
  exists c, p. split; [done|]. split; [done|]. split.
  - apply (Hmiss 0 a c); [lia | done | done].
  - split.
    + rewrite ancestor_S_r, Hcyc'. simpl. by rewrite Hc, Hp.
    + intros i b c' Hi Hb Hc'.
      destruct (decide (i = n)) as [-> | Hne].
      * rewrite Hcyc' in Hb. injection Hb as <-.
        apply (Hmiss 0 a c'); [lia | done | done].
      * apply (Hmiss (S i) b c'); [lia | | done].
        simpl. by rewrite Hc, Hp.
Qed.

Lemma get_diverges (h : heap) (K : jsval) (k : string) (n : nat) :
  getInjectableKey K h = (Ret k, h) →
  ∀ fuel a, on_missing_cycle h k n a → get fuel a K h = (Diverge, h).
Proof.
  intros Hk. induction fuel as [|fuel IH]; intros a Ha; [done|].
  destruct (cycle_parent h k n a Ha) as (c & p & Hc & Hp & Hmiss & Hcyc).
  rewrite (get_step _ _ _ _ _ _ Hk Hc), Hmiss, Hp. by apply IH.
Qed.

Lemma has_diverges (h : heap) (k : string) (n : nat) :
  ∀ fuel K a, getInjectableKey K h = (Ret k, h) →
    on_missing_cycle h k n a → has fuel a K h = (Diverge, h).
Proof.
  induction fuel as [|fuel IH]; intros K a Hk Ha; [done|].
  destruct (cycle_parent h k n a Ha) as (c & p & Hc & Hp & Hmiss & Hcyc).
  rewrite (has_step _ _ _ _ _ _ Hk Hc), Hmiss, Hp.
  apply IH; [by eapply getInjectableKey_resolved | done].
Qed.

(** A chain that reaches a root has no container on a cycle. *)
Lemma reaches_root_ancestor (h : heap) (n : nat) :
  ∀ a m, reaches_root h n a = true → n < m → ancestor h m a = None.
Proof.
  induction n as [|n IH]; intros a m Hroot Hm;
    (destruct m as [|m]; [lia|]); simpl in *;
    destruct (h !! a) as [c|]; try done;
    destruct (parent c) as [p|]; try done.
  apply IH; [done | lia].
Qed.

(** C9: a lookup with a key that resolves returns when the parent chain
    of the container ends in a root (after [n] links, [n + 1] nested calls
    suffice); nothing detects a cycle: on a cycle of parent links whose
    registries all lack the identifier, [get], [has] and [require] exhaust
    every call depth. *)
Theorem lookup_termination (h : heap) (a : ref) (K : jsval) (k : string) (n : nat) :
  getInjectableKey K h = (Ret k, h) →
  (reaches_root h n a = true →
   ∀ fuel, n < fuel →
     (∃ v, get fuel a K h = (Ret v, h))
     ∧ (∃ b, has fuel a K h = (Ret b, h))
     ∧ ((∃ v, require fuel a K h = (Ret v, h))
        ∨ require fuel a K h
          = (Throw (Error ("Required dependency '" ++ k
                           ++ "' not found in container")), h)))
  ∧ (on_missing_cycle h k n a →
     ∀ fuel, get fuel a K h = (Diverge, h)
           ∧ has fuel a K h = (Diverge, h)
           ∧ require fuel a K h = (Diverge, h)).
Proof.
  intros Hk. split.
  - intros Hroot fuel Hfuel.
    destruct (get_terminates h K k n Hk a fuel Hroot Hfuel) as [v Hget].
    split; [by eexists|]. split.
    + apply getInjectableKey_Ret in Hk as Hk'. destruct Hk' as (_ & Hne & _).
      by eapply has_terminates.
    + rewrite (require_step _ _ _ _ _ Hk), Hget.
      destruct (decide (v = VUndefined)); [|by eauto].
      rewrite Hk. by right.
  - intros Hcyc fuel.
    pose proof (get_diverges h K k n Hk fuel a Hcyc) as Hget.
    split; [done|]. split; [by eapply has_diverges|].
    by rewrite (require_step _ _ _ _ _ Hk), Hget.
Qed.

Lemma lookup_termination_witness :
  (∀ fuel, 2 < fuel →
     (∃ v, get fuel 2 (VStr "Service1") three_level_heap = (Ret v, three_level_heap))
     ∧ (∃ b, has fuel 2 (VStr "Service1") three_level_heap = (Ret b, three_level_heap))
     ∧ ((∃ v, require fuel 2 (VStr "Service1") three_level_heap
              = (Ret v, three_level_heap))
        ∨ require fuel 2 (VStr "Service1") three_level_heap
          = (Throw (Error "Required dependency 'Service1' not found in container"),
             three_level_heap)))
  ∧ (∀ fuel, get fuel 0 (VStr "Missing") cyclic_heap = (Diverge, cyclic_heap)
           ∧ has fuel 0 (VStr "Missing") cyclic_heap = (Diverge, cyclic_heap)
           ∧ require fuel 0 (VStr "Missing") cyclic_heap = (Diverge, cyclic_heap)).
Proof.
  split.
  - apply (proj1 (lookup_termination three_level_heap 2 (VStr "Service1")
                    "Service1" 2 eq_refl)).
    reflexivity.
  - apply (proj2 (lookup_termination cyclic_heap 0 (VStr "Missing")
                    "Missing" 1 eq_refl)).
    split; [reflexivity|].
    intros i b c Hi Hb Hc.
    destruct i as [|[|i]]; [| |lia]; simpl in Hb; injection Hb as <-;
      simpl in Hc; injection Hc as <-; vm_compute; reflexivity.
Defined.

(** On the same cyclic store, a key found before the walk closes the
    cycle is returned. *)
Example cycle_hit :
  get 2 1 (VStr "Service") cyclic_heap = (Ret (VObj 1), cyclic_heap)
  ∧ has 2 1 (VStr "Service") cyclic_heap = (Ret true, cyclic_heap).
Proof. split; vm_compute; reflexivity. Qed.

(** The three-level chain of the test suite: the child sees the
    grandparent's service, the parent does not see the child's. *)
Example three_levels :
  get 3 2 (VStr "Service1") three_level_heap = (Ret (VObj 1), three_level_heap)
  ∧ has 2 1 (VStr "Service3") three_level_heap = (Ret false, three_level_heap).
Proof. split; vm_compute; reflexivity. Qed.

(** The cyclic store is what the public methods build: two roots, then
    each is made the parent of the other. *)
Example cyclic_heap_built :
  (setParent 0 1;; setParent 1 0)
    [ mkContainer {[ "Service" := VObj 1 ]} None; mkContainer ∅ None ]
  = (Ret (), cyclic_heap).
Proof. vm_compute. reflexivity. Qed.

(** * Further properties of the container *)

(** ** Reads *)

(** X1: [getInjectableKey], [get], [has] and [require] are reads: whatever
    the outcome, the store they hand back is the store they were given. *)
Theorem reads_are_pure (fuel : nat) (h : heap) (this : ref) (K : jsval) :
  (getInjectableKey K h).2 = h
  ∧ (get fuel this K h).2 = h
  ∧ (has fuel this K h).2 = h
  ∧ (require fuel this K h).2 = h.
Proof.
  split; [|split; [|split]].
  - destruct (getInjectableKey_cases K h) as [[k ->] | ->]; done.
  - apply get_heap.
  - apply has_heap.
  - apply require_heap.
Qed.

(** Two keys with the same identifier walk the chain alike. *)
Lemma get_same_identifier (h : heap) (K1 K2 : jsval) (k : string) :
  getInjectableKey K1 h = (Ret k, h) →
  getInjectableKey K2 h = (Ret k, h) →
  ∀ fuel a, get fuel a K1 h = get fuel a K2 h.
Proof.
  intros H1 H2. induction fuel as [|fuel IH]; intros a; [done|].
  rewrite !get_unfold, H1, H2.
  destruct (h !! a) as [self|]; [|done].
  destruct (dependencies self !! k); [done|].
  destruct (parent self); [apply IH | done].
Qed.

Lemma has_same_identifier (h : heap) (k : string) :
  ∀ fuel K1 K2 a,
    getInjectableKey K1 h = (Ret k, h) →
    getInjectableKey K2 h = (Ret k, h) →
    has fuel a K1 h = has fuel a K2 h.
Proof.
  induction fuel as [|fuel IH]; intros K1 K2 a H1 H2; [done|].
  rewrite !has_unfold, H1, H2. done.
Qed.

(** X2: keys that resolve to the same identifier are one key: a string and
    a class of that name, or two classes of one name, give the same
    outcome in [get], [has] and [require], and a value registered under
    one is found under the other. *)
Theorem same_identifier_same_key (h : heap) (R : ref) (K1 K2 V : jsval) (k : string) :
  getInjectableKey K1 h = (Ret k, h) →
  getInjectableKey K2 h = (Ret k, h) →
  (∀ fuel a, get fuel a K1 h = get fuel a K2 h
           ∧ has fuel a K1 h = has fuel a K2 h
           ∧ require fuel a K1 h = require fuel a K2 h)
  ∧ register R K1 V h = register R K2 V h
  ∧ (R < length h →
     ∃ h', register R K1 V h = (Ret (), h')
       ∧ ∀ fuel, get (S fuel) R K2 h' = (Ret V, h')
               ∧ has (S fuel) R K2 h' = (Ret true, h')).
Proof.
  intros H1 H2. split; [|split].
  - intros fuel a.
    pose proof (get_same_identifier h K1 K2 k H1 H2 fuel a) as Hget.
    split; [done|]. split; [by eapply has_same_identifier|].
    unfold require, mbind, M_bind. rewrite Hget.
    pose proof (get_heap fuel h a K2) as Hh.
    destruct (get fuel a K2 h) as [[v | e | |] h0]; simpl in Hh; subst h0; try done.
    destruct (decide (v = VUndefined)); [|done]. by rewrite H1, H2.
  - unfold register, mbind, M_bind. by rewrite H1, H2.
  - intros HR. apply lookup_lt_is_Some_2 in HR as [self Hself].
    destruct (register_lookup h R K1 V k self H1 Hself)
      as (h' & Hreg & Hself' & _ & _ & _).
    exists h'. split; [done|]. intros fuel.
    eapply own_entry_found;
      [by eapply getInjectableKey_any_heap | done | apply lookup_insert_eq].
Qed.

Lemma same_identifier_same_key_witness :
  (∀ fuel a, get fuel a (VStr "MyService") root_heap = get fuel a MyService root_heap
           ∧ has fuel a (VStr "MyService") root_heap = has fuel a MyService root_heap
           ∧ require fuel a (VStr "MyService") root_heap
             = require fuel a MyService root_heap)
  ∧ register 0 (VStr "MyService") (VObj 7) root_heap
    = register 0 MyService (VObj 7) root_heap
  ∧ (0 < length root_heap →
     ∃ h', register 0 (VStr "MyService") (VObj 7) root_heap = (Ret (), h')
       ∧ ∀ fuel, get (S fuel) 0 MyService h' = (Ret (VObj 7), h')
               ∧ has (S fuel) 0 MyService h' = (Ret true, h')).
Proof.
  apply (same_identifier_same_key root_heap 0 (VStr "MyService") MyService
           (VObj 7) "MyService"); reflexivity.
Defined.

(** ** Lookups along a chain *)

Lemma chain_hit (h : heap) (k : string) (v : jsval) (b : ref)
    (cb : DependencyContainer) :
  h !! b = Some cb →
  dependencies cb !! k = Some v →
  ∀ n K a fuel,
    getInjectableKey K h = (Ret k, h) →
    ancestor h n a = Some b →
    (∀ i b' c', i < n → ancestor h i a = Some b' → h !! b' = Some c' →
                dependencies c' !! k = None) →
    n < fuel →
    get fuel a K h = (Ret v, h) ∧ has fuel a K h = (Ret true, h).
Proof.
  intros Hb Hv. induction n as [|n IH]; intros K a fuel Hk Hanc Hmiss Hfuel;
    (destruct fuel as [|fuel]; [lia|]).
  - injection Hanc as ->. by eapply own_entry_found.
  - pose proof Hanc as Hanc'. simpl in Hanc'.
    destruct (h !! a) as [c|] eqn:Hc; [|done].
    destruct (parent c) as [p|] eqn:Hp; [|done].
    assert (Hc0 : dependencies c !! k = None)
      by (apply (Hmiss 0 a c); [lia | done | done]).
    assert (Hshift : ∀ i b' c', i < n → ancestor h i p = Some b' →
              h !! b' = Some c' → dependencies c' !! k = None).
    { intros i b' c' Hi Hb' Hc'. apply (Hmiss (S i) b' c'); [lia | | done].
      simpl. by rewrite Hc, Hp. }
    destruct (get_delegates fuel h a p K k c Hk Hc Hc0 Hp) as (-> & -> & _).
    split.
    + apply (IH K p fuel); [done | done | done | lia].
    + apply (IH (VStr k) p fuel);
        [by eapply getInjectableKey_resolved | done | done | lia].
Qed.

(** X3: the nearest container of the chain that holds the identifier
    answers: when the [n]-th ancestor has the entry and the containers
    before it do not, [get] returns that entry's value and [has] returns
    [true], whatever the containers further up hold. *)
Theorem nearest_ancestor_wins (h : heap) (a b : ref) (K v : jsval) (k : string)
    (n : nat) (cb : DependencyContainer) :
  getInjectableKey K h = (Ret k, h) →
  ancestor h n a = Some b →
  h !! b = Some cb →
  dependencies cb !! k = Some v →
  (∀ i b' c', i < n → ancestor h i a = Some b' → h !! b' = Some c' →
              dependencies c' !! k = None) →
  ∀ fuel, n < fuel →
    get fuel a K h = (Ret v, h) ∧ has fuel a K h = (Ret true, h).
Proof.
  intros Hk Hanc Hb Hv Hmiss fuel Hfuel. by eapply chain_hit.
Qed.

Lemma nearest_ancestor_wins_witness :
  get 3 2 (VStr "Service1") three_level_heap = (Ret (VObj 1), three_level_heap)
  ∧ has 3 2 (VStr "Service1") three_level_heap = (Ret true, three_level_heap).
Proof.
  apply (nearest_ancestor_wins three_level_heap 2 0 (VStr "Service1") (VObj 1)
           "Service1" 2 (mkContainer {[ "Service1" := VObj 1 ]} None)).
  - reflexivity.
  - reflexivity.
  - reflexivity.
  - vm_compute. reflexivity.
  - intros i b' c' Hi Hb' Hc'.
    destruct i as [|[|i]]; [| |lia]; simpl in Hb'; injection Hb' as <-;
      simpl in Hc'; injection Hc' as <-; vm_compute; reflexivity.
  - lia.
Defined.

Lemma chain_miss (h : heap) (k : string) :
  ∀ n K a fuel,
    getInjectableKey K h = (Ret k, h) →
    reaches_root h n a = true →
    (∀ i b' c', i ≤ n → ancestor h i a = Some b' → h !! b' = Some c' →
                dependencies c' !! k = None)%nat →
    n < fuel →
    get fuel a K h = (Ret VUndefined, h)
    ∧ has fuel a K h = (Ret false, h)
    ∧ require fuel a K h
      = (Throw (Error ("Required dependency '" ++ k ++ "' not found in container")), h).
Proof.
  induction n as [|n IH]; intros K a fuel Hk Hroot Hmiss Hfuel;
    (destruct fuel as [|fuel]; [lia|]);
    simpl in Hroot; destruct (h !! a) as [c|] eqn:Hc; try done;
    (assert (Hc0 : dependencies c !! k = None)
       by (apply (Hmiss 0 a c); [lia | done | done]));
    (destruct (parent c) as [p|] eqn:Hp; [|by eapply root_miss]); [done|].
  assert (Hshift : ∀ i b' c', (i ≤ n)%nat → ancestor h i p = Some b' →
            h !! b' = Some c' → dependencies c' !! k = None).
  { intros i b' c' Hi Hb' Hc'. apply (Hmiss (S i) b' c'); [lia | | done].
    simpl. by rewrite Hc, Hp. }
  destruct (get_delegates fuel h a p K k c Hk Hc Hc0 Hp) as (-> & -> & ->).
  destruct (IH K p fuel Hk Hroot Hshift) as (Hg & _ & Hr); [lia|].
  destruct (IH (VStr k) p fuel) as (_ & Hs & _);
    [by eapply getInjectableKey_resolved | done | done | lia |].
  done.
Qed.

(** X4: when the chain ends in a root and no container of it holds the
    identifier, [get] returns [undefined], [has] returns [false] and
    [require] throws the not-found error, at any depth of the chain. *)
Theorem chain_miss_everywhere (h : heap) (a : ref) (K : jsval) (k : string) (n : nat) :
  getInjectableKey K h = (Ret k, h) →
  reaches_root h n a = true →
  (∀ i b' c', i ≤ n → ancestor h i a = Some b' → h !! b' = Some c' →
              dependencies c' !! k = None)%nat →
  ∀ fuel, n < fuel →
    get fuel a K h = (Ret VUndefined, h)
    ∧ has fuel a K h = (Ret false, h)
    ∧ require fuel a K h
      = (Throw (Error ("Required dependency '" ++ k ++ "' not found in container")), h).
Proof.
  intros Hk Hroot Hmiss fuel Hfuel. by eapply chain_miss.
Qed.

Lemma chain_miss_everywhere_witness :
  get 3 2 (VStr "Missing") three_level_heap = (Ret VUndefined, three_level_heap)
  ∧ has 3 2 (VStr "Missing") three_level_heap = (Ret false, three_level_heap)
  ∧ require 3 2 (VStr "Missing") three_level_heap
    = (Throw (Error "Required dependency 'Missing' not found in container"),
       three_level_heap).
Proof.
  apply (chain_miss_everywhere three_level_heap 2 (VStr "Missing") "Missing" 2).
  - reflexivity.
  - reflexivity.
  - intros i b' c' Hi Hb' Hc'.
    destruct i as [|[|[|i]]]; [| | |lia]; simpl in Hb'; injection Hb' as <-;
      simpl in Hc'; injection Hc' as <-; vm_compute; reflexivity.
  - lia.
Defined.

(** ** [get], [has] and [require] against each other *)

(** [get] and [has] take the same path through the chain. *)
Lemma get_has_related (h : heap) (k : string) :
  ∀ fuel K K' a,
    getInjectableKey K h = (Ret k, h) →
    getInjectableKey K' h = (Ret k, h) →
    match (get fuel a K h).1, (has fuel a K' h).1 with
    | Ret v, Ret b => b = false → v = VUndefined
    | Diverge, Diverge => True
    | Stuck, Stuck => True
    | _, _ => False
    end.
Proof.
  induction fuel as [|fuel IH]; intros K K' a Hk Hk'; [done|].
  rewrite get_unfold, has_unfold, Hk, Hk'.
  destruct (h !! a) as [self|]; [|done].
  destruct (dependencies self !! k); [done|].
  destruct (parent self) as [p|]; [|done].
  apply IH; [done | by eapply getInjectableKey_resolved].
Qed.

(** X5: [has] and [get] agree: a value other than [undefined] returned by
    [get] means [has] returns [true]; when [has] returns [false], [get]
    returns [undefined] and [require] throws the not-found error; and one
    exhausts the call depth exactly when the other does. *)
Theorem get_has_consistent (h : heap) (a : ref) (K : jsval) (k : string)
    (fuel : nat) :
  getInjectableKey K h = (Ret k, h) →
  (∀ v, get fuel a K h = (Ret v, h) → v ≠ VUndefined →
        has fuel a K h = (Ret true, h))
  ∧ (has fuel a K h = (Ret false, h) →
     get fuel a K h = (Ret VUndefined, h)
     ∧ require fuel a K h
       = (Throw (Error ("Required dependency '" ++ k
                        ++ "' not found in container")), h))
  ∧ (get fuel a K h = (Diverge, h) ↔ has fuel a K h = (Diverge, h)).
Proof.
  intros Hk.
  pose proof (get_has_related h k fuel K K a Hk Hk) as Hrel.
  pose proof (get_heap fuel h a K) as Hgh.
  pose proof (has_heap fuel h a K) as Hhh.
  rewrite (require_step _ _ _ _ _ Hk).
  destruct (get fuel a K h) as [og hg]. destruct (has fuel a K h) as [oh hh].
  simpl in *. subst hg hh.
  destruct og as [v | e | |]; destruct oh as [b | e' | |]; try done.
  split; [|split].
  - intros v' [= <-] Hv. destruct b; [done|]. by destruct Hv; apply Hrel.
  - intros [= ->]. rewrite Hrel by done. rewrite decide_True by done.
    by rewrite Hk.
  - split; discriminate.
Qed.

Lemma get_has_consistent_witness :
  (∀ v, get 3 2 (VStr "Service1") three_level_heap = (Ret v, three_level_heap) →
        v ≠ VUndefined →
        has 3 2 (VStr "Service1") three_level_heap = (Ret true, three_level_heap))
  ∧ (has 3 2 (VStr "Service1") three_level_heap = (Ret false, three_level_heap) →
     get 3 2 (VStr "Service1") three_level_heap = (Ret VUndefined, three_level_heap)
     ∧ require 3 2 (VStr "Service1") three_level_heap
       = (Throw (Error "Required dependency 'Service1' not found in container"),
          three_level_heap))
  ∧ (get 3 2 (VStr "Service1") three_level_heap = (Diverge, three_level_heap)
     ↔ has 3 2 (VStr "Service1") three_level_heap = (Diverge, three_level_heap)).
Proof.
  apply (get_has_consistent three_level_heap 2 (VStr "Service1") "Service1" 3).
  reflexivity.
Defined.

(** ** Call depth *)

Lemma get_fuel_mono (h : heap) (K : jsval) :
  ∀ fuel fuel' a o,
    get fuel a K h = (o, h) → o ≠ Diverge → (fuel ≤ fuel')%nat →
    get fuel' a K h = (o, h).
Proof.
  induction fuel as [|fuel IH]; intros fuel' a o Hget Ho Hle.
  - injection Hget as <-. done.
  - destruct fuel' as [|fuel']; [lia|].
    rewrite get_unfold in Hget. rewrite get_unfold.
    destruct (getInjectableKey K h) as [[k | e | |] h0]; try done.
    destruct (h !! a) as [self|]; [|done].
    destruct (dependencies self !! k); [done|].
    destruct (parent self) as [p|]; [|done].
    apply (IH fuel' p o); [done | done | lia].
Qed.

Lemma has_fuel_mono (h : heap) :
  ∀ fuel fuel' K a o,
    has fuel a K h = (o, h) → o ≠ Diverge → (fuel ≤ fuel')%nat →
    has fuel' a K h = (o, h).
Proof.
  induction fuel as [|fuel IH]; intros fuel' K a o Hhas Ho Hle.
  - injection Hhas as <-. done.
  - destruct fuel' as [|fuel']; [lia|].
    rewrite has_unfold in Hhas. rewrite has_unfold.
    destruct (getInjectableKey K h) as [[k | e | |] h0]; try done.
    destruct (h !! a) as [self|]; [|done].
    destruct (dependencies self !! k); [done|].
    destruct (parent self) as [p|]; [|done].
    apply (IH fuel' (VStr k) p o); [done | done | lia].
Qed.

(** X6: the result of a lookup does not depend on the call depth at hand:
    an outcome reached at one depth (a value, an error) is the outcome at
    every larger depth. *)
Theorem outcome_independent_of_depth (h : heap) (a : ref) (K : jsval)
    (fuel fuel' : nat) :
  (fuel ≤ fuel')%nat →
  (∀ o, get fuel a K h = (o, h) → o ≠ Diverge → get fuel' a K h = (o, h))
  ∧ (∀ o, has fuel a K h = (o, h) → o ≠ Diverge → has fuel' a K h = (o, h))
  ∧ (∀ o, require fuel a K h = (o, h) → o ≠ Diverge →
          require fuel' a K h = (o, h)).
Proof.
  intros Hle. split; [|split].
  - intros o Hget Ho. by eapply get_fuel_mono.
  - intros o Hhas Ho. by eapply has_fuel_mono.
  - intros o Hreq Ho. unfold require, mbind, M_bind in *.
    pose proof (get_heap fuel h a K) as Hh.
    destruct (get fuel a K h) as [og hg] eqn:Hget. simpl in Hh. subst hg.
    assert (Hog : og ≠ Diverge).
    { intros ->. injection Hreq as <-. done. }
    by rewrite (get_fuel_mono h K fuel fuel' a og Hget Hog Hle).
Qed.

Lemma outcome_independent_of_depth_witness :
  (∀ o, get 3 2 (VStr "Service1") three_level_heap = (o, three_level_heap) →
        o ≠ Diverge → get 10 2 (VStr "Service1") three_level_heap = (o, three_level_heap))
  ∧ (∀ o, has 3 2 (VStr "Service1") three_level_heap = (o, three_level_heap) →
          o ≠ Diverge →
          has 10 2 (VStr "Service1") three_level_heap = (o, three_level_heap))
  ∧ (∀ o, require 3 2 (VStr "Service1") three_level_heap = (o, three_level_heap) →
          o ≠ Diverge →
          require 10 2 (VStr "Service1") three_level_heap = (o, three_level_heap)).
Proof.
  apply (outcome_independent_of_depth three_level_heap 2 (VStr "Service1") 3 10).
  lia.
Defined.

(** ** What a registration can change *)

Lemma register_inv (h h' : heap) (R : ref) (K V : jsval) :
  register R K V h = (Ret (), h') →
  ∃ k self, getInjectableKey K h = (Ret k, h)
    ∧ h !! R = Some self
    ∧ h' = <[R := mkContainer (<[k := V]> (dependencies self)) (parent self)]> h.
Proof.
  intros Hreg.
  destruct (getInjectableKey_cases K h) as [[k Hk] | Hk];
    [|unfold register, mbind, M_bind in Hreg; by rewrite Hk in Hreg].
  destruct (h !! R) as [self|] eqn:Hself.
  - rewrite (register_step _ _ _ _ _ _ Hk Hself) in Hreg.
    injection Hreg as <-. by exists k, self.
  - unfold register, dependencies_set, mbind, M_bind, deref in Hreg.
    by rewrite Hk, Hself in Hreg.
Qed.

Lemma setParent_inv (h h' : heap) (R N : ref) :
  setParent R N h = (Ret (), h') →
  ∃ self, h !! R = Some self
    ∧ h' = <[R := mkContainer (dependencies self) (Some N)]> h.
Proof.
  intros Hset. destruct (h !! R) as [self|] eqn:Hself.
  - rewrite (setParent_step _ _ _ _ Hself) in Hset.
    injection Hset as <-. by exists self.
  - unfold setParent, mbind, M_bind, deref in Hset. by rewrite Hself in Hset.
Qed.

(** An outcome together with the unchanged store. *)
Lemma with_heap {A : Type} (r : outcome A * list DependencyContainer)
    (o : outcome A) (h : heap) :
  r.2 = h → r.1 = o → r = (o, h).
Proof. destruct r. simpl. by intros -> ->. Qed.

Section agree_on_identifier.
Variables (h h' : heap) (k : string).
Hypothesis same :
  ∀ b, match h !! b, h' !! b with
       | Some c, Some c' =>
           parent c = parent c' ∧ dependencies c !! k = dependencies c' !! k
       | None, None => True
       | _, _ => False
       end.

Lemma get_agree (fuel : nat) (K : jsval) (a : ref) :
  getInjectableKey K h = (Ret k, h) →
  (get fuel a K h').1 = (get fuel a K h).1.
Proof.
  intros Hk. revert a. induction fuel as [|fuel IH]; intros a; [done|].
  rewrite !get_unfold, Hk, (getInjectableKey_any_heap _ _ _ h' Hk).
  specialize (same a).
  destruct (h !! a) as [c|]; destruct (h' !! a) as [c'|]; try done.
  destruct same as [<- <-].
  destruct (dependencies c !! k); [done|].
  destruct (parent c); [apply IH | done].
Qed.

Lemma has_agree (fuel : nat) (K : jsval) (a : ref) :
  getInjectableKey K h = (Ret k, h) →
  (has fuel a K h').1 = (has fuel a K h).1.
Proof.
  revert K a. induction fuel as [|fuel IH]; intros K a Hk; [done|].
  rewrite !has_unfold, Hk, (getInjectableKey_any_heap _ _ _ h' Hk).
  specialize (same a).
  destruct (h !! a) as [c|]; destruct (h' !! a) as [c'|]; try done.
  destruct same as [<- <-].
  destruct (dependencies c !! k); [done|].
  destruct (parent c); [|done].
  apply IH. by eapply getInjectableKey_resolved.
Qed.

Lemma require_agree (fuel : nat) (K : jsval) (a : ref) :
  getInjectableKey K h = (Ret k, h) →
  (require fuel a K h').1 = (require fuel a K h).1.
Proof.
  intros Hk. unfold require, mbind, M_bind.
  pose proof (get_agree fuel K a Hk) as Hf.
  pose proof (get_heap fuel h a K) as Hh.
  pose proof (get_heap fuel h' a K) as Hh'.
  destruct (get fuel a K h) as [[v | e | |] g];
    destruct (get fuel a K h') as [[v' | e' | |] g'];
    simpl in *; subst; try done; try congruence.
  injection Hf as ->.
  destruct (decide (v = VUndefined)); [|done].
  by rewrite Hk, (getInjectableKey_any_heap _ _ _ h' Hk).
Qed.
End agree_on_identifier.

(** X7: a registration is seen only under its own identifier: after
    [R.register(K1, V)], a lookup of a key with another identifier gives,
    on every container of the store, the outcome it gave before. *)
Theorem register_other_identifier (h h' : heap) (R : ref) (K1 K2 V : jsval)
    (k1 k2 : string) :
  getInjectableKey K1 h = (Ret k1, h) →
  getInjectableKey K2 h = (Ret k2, h) →
  k1 ≠ k2 →
  register R K1 V h = (Ret (), h') →
  ∀ fuel a,
    get fuel a K2 h' = ((get fuel a K2 h).1, h')
    ∧ has fuel a K2 h' = ((has fuel a K2 h).1, h')
    ∧ require fuel a K2 h' = ((require fuel a K2 h).1, h').
Proof.
  intros Hk1 Hk2 Hne Hreg fuel a.
  apply register_inv in Hreg as (k & self & Hk & Hself & ->).
  assert (k = k1) as -> by congruence.
  set (h' := <[R := _]> h).
  assert (Hsame : ∀ b, match h !! b, h' !! b with
            | Some c, Some c' =>
                parent c = parent c'
                ∧ dependencies c !! k2 = dependencies c' !! k2
            | None, None => True
            | _, _ => False
            end).
  { intros b. subst h'. destruct (decide (b = R)) as [-> | Hb].
    - rewrite list_lookup_insert_eq by by eapply lookup_lt_Some.
      rewrite Hself. simpl. by rewrite lookup_insert_ne.
    - rewrite list_lookup_insert_ne by done.
      by destruct (h !! b). }
  split; [|split]; apply with_heap.
  - apply get_heap.
  - by eapply get_agree.
  - apply has_heap.
  - by eapply has_agree.
  - apply require_heap.
  - by eapply require_agree.
Qed.

Lemma register_other_identifier_witness :
  get 1 0 (VStr "Service")
      [mkContainer (<[ "Other" := VObj 9 ]> {[ "Service" := VObj 1 ]}) None]
  = ((get 1 0 (VStr "Service") service_heap).1,
     [mkContainer (<[ "Other" := VObj 9 ]> {[ "Service" := VObj 1 ]}) None])
  ∧ has 1 0 (VStr "Service")
        [mkContainer (<[ "Other" := VObj 9 ]> {[ "Service" := VObj 1 ]}) None]
    = ((has 1 0 (VStr "Service") service_heap).1,
       [mkContainer (<[ "Other" := VObj 9 ]> {[ "Service" := VObj 1 ]}) None])
  ∧ require 1 0 (VStr "Service")
        [mkContainer (<[ "Other" := VObj 9 ]> {[ "Service" := VObj 1 ]}) None]
    = ((require 1 0 (VStr "Service") service_heap).1,
       [mkContainer (<[ "Other" := VObj 9 ]> {[ "Service" := VObj 1 ]}) None]).
Proof.
  apply (register_other_identifier service_heap _ 0 (VStr "Other") (VStr "Service")
           (VObj 9) "Other" "Service").
  - reflexivity.
  - reflexivity.
  - discriminate.
  - reflexivity.
Defined.

(** X8: registrations on different containers, or under different
    identifiers, commute: either order leaves the same store. *)
Theorem register_commutes (h : heap) (R1 R2 : ref) (K1 K2 V1 V2 : jsval)
    (k1 k2 : string) :
  getInjectableKey K1 h = (Ret k1, h) →
  getInjectableKey K2 h = (Ret k2, h) →
  R1 < length h →
  R2 < length h →
  R1 ≠ R2 ∨ k1 ≠ k2 →
  (register R1 K1 V1;; register R2 K2 V2) h
  = (register R2 K2 V2;; register R1 K1 V1) h.
Proof.
  intros Hk1 Hk2 HR1 HR2 Hne.
  apply lookup_lt_is_Some_2 in HR1 as [c1 Hc1].
  apply lookup_lt_is_Some_2 in HR2 as [c2 Hc2].
  destruct (register_lookup h R1 K1 V1 k1 c1 Hk1 Hc1)
    as (h1 & Hreg1 & Hat1 & _ & Hold1 & _).
  destruct (register_lookup h R2 K2 V2 k2 c2 Hk2 Hc2)
    as (h2 & Hreg2 & Hat2 & _ & Hold2 & _).
  rewrite (bind_Ret _ _ _ _ _ Hreg1), (bind_Ret _ _ _ _ _ Hreg2).
  rewrite (register_step _ _ _ _ _ _ Hk1 Hc1) in Hreg1. injection Hreg1 as <-.
  rewrite (register_step _ _ _ _ _ _ Hk2 Hc2) in Hreg2. injection Hreg2 as <-.
  destruct (decide (R1 = R2)) as [-> | HR].
  - assert (c1 = c2) as -> by congruence.
    assert (Hk : k1 ≠ k2) by (destruct Hne; done).
    rewrite (register_step _ _ _ _ _ _
               (getInjectableKey_any_heap _ _ _ _ Hk2) Hat1).
    rewrite (register_step _ _ _ _ _ _
               (getInjectableKey_any_heap _ _ _ _ Hk1) Hat2).
    simpl. rewrite !list_insert_insert_eq.
    by rewrite (insert_insert_ne (dependencies c2) k1 k2).
  - assert (H12 : <[R1 := mkContainer (<[k1 := V1]> (dependencies c1)) (parent c1)]> h
                  !! R2 = Some c2) by (by rewrite Hold1).
    assert (H21 : <[R2 := mkContainer (<[k2 := V2]> (dependencies c2)) (parent c2)]> h
                  !! R1 = Some c1) by (by rewrite Hold2).
    rewrite (register_step _ _ _ _ _ _
               (getInjectableKey_any_heap _ _ _ _ Hk2) H12).
    rewrite (register_step _ _ _ _ _ _
               (getInjectableKey_any_heap _ _ _ _ Hk1) H21).
    by rewrite list_insert_insert_ne.
Qed.

Lemma register_commutes_witness :
  (register 0 (VStr "A") (VObj 1);; register 0 (VStr "B") (VObj 2)) root_heap
  = (register 0 (VStr "B") (VObj 2);; register 0 (VStr "A") (VObj 1)) root_heap.
Proof.
  apply (register_commutes root_heap 0 0 (VStr "A") (VStr "B") (VObj 1) (VObj 2)
           "A" "B").
  - reflexivity.
  - reflexivity.
  - simpl. lia.
  - simpl. lia.
  - right. discriminate.
Defined.

(** ** Parent links are live *)

(** X9: a child holds a link to its parent, not a copy of its entries: a
    value registered on the parent after the child was linked is found
    from the child, as long as the child has no entry of its own for the
    identifier. *)
Theorem late_registration_visible (h : heap) (c P : ref) (K V : jsval)
    (k : string) (self : DependencyContainer) :
  getInjectableKey K h = (Ret k, h) →
  h !! c = Some self →
  parent self = Some P →
  dependencies self !! k = None →
  P < length h →
  ∃ h', register P K V h = (Ret (), h')
    ∧ ∀ fuel, get (S (S fuel)) c K h' = (Ret V, h')
            ∧ has (S (S fuel)) c K h' = (Ret true, h')
            ∧ (V ≠ VUndefined → require (S (S fuel)) c K h' = (Ret V, h')).
Proof.
  intros Hk Hc Hp Hmiss HP. apply lookup_lt_is_Some_2 in HP as [pself HPs].
  destruct (register_lookup h P K V k pself Hk HPs)
    as (h' & Hreg & HP' & _ & Hold & Hk').
  exists h'. split; [done|]. intros fuel.
  assert (Hown : dependencies
            (mkContainer (<[k := V]> (dependencies pself)) (parent pself)) !! k
          = Some V) by apply lookup_insert_eq.
  assert (Hget : get (S (S fuel)) c K h' = (Ret V, h')
                 ∧ has (S (S fuel)) c K h' = (Ret true, h')).
  { destruct (decide (c = P)) as [-> | Hne].
    - by eapply own_entry_found.
    - rewrite <- (Hold c Hne) in Hc.
      destruct (get_delegates (S fuel) h' c P K k self Hk' Hc Hmiss Hp)
        as (-> & -> & _).
      split.
      + by eapply own_entry_found.
      + eapply own_entry_found; [by eapply getInjectableKey_resolved | done..]. }
  destruct Hget as [Hget Hhas]. split; [done|]. split; [done|].
  intros HV. by eapply require_found.
Qed.

Lemma late_registration_visible_witness :
  ∃ h', register 0 (VStr "ParentService") (VObj 5) two_parents_heap = (Ret (), h')
    ∧ ∀ fuel, get (S (S fuel)) 2 (VStr "ParentService") h' = (Ret (VObj 5), h')
            ∧ has (S (S fuel)) 2 (VStr "ParentService") h' = (Ret true, h')
            ∧ (VObj 5 ≠ VUndefined →
               require (S (S fuel)) 2 (VStr "ParentService") h' = (Ret (VObj 5), h')).
Proof.
  apply (late_registration_visible two_parents_heap 2 0 (VStr "ParentService")
           (VObj 5) "ParentService" (mkContainer ∅ (Some 0))).
  - reflexivity.
  - reflexivity.
  - reflexivity.
  - vm_compute. reflexivity.
  - simpl. lia.
Defined.

(** ** Isolation *)

(** The containers of the chain of [a] are closed under the parent link. *)
Lemma chain_closed (h : heap) (a b p : ref) (c : DependencyContainer) :
  (∃ i, ancestor h i a = Some b) →
  h !! b = Some c →
  parent c = Some p →
  ∃ i, ancestor h i a = Some p.
Proof.
  intros [i Hi] Hb Hp. exists (S i).
  rewrite ancestor_S_r, Hi. simpl. by rewrite Hb, Hp.
Qed.

(** X10: a write to a container is seen only through chains that pass by
    it: when [R] is not on the parent chain of [a], neither
    [R.register(..)] nor [R.setParent(..)] changes the outcome of any
    lookup on [a] (so siblings, and the ancestors of [R], are unaffected). *)
Theorem write_off_chain (h : heap) (a R : ref) :
  (∀ i, ancestor h i a ≠ Some R) →
  (∀ K V h', register R K V h = (Ret (), h') →
     ∀ K' fuel,
       get fuel a K' h' = ((get fuel a K' h).1, h')
       ∧ has fuel a K' h' = ((has fuel a K' h).1, h')
       ∧ require fuel a K' h' = ((require fuel a K' h).1, h'))
  ∧ (∀ N h', setParent R N h = (Ret (), h') →
     ∀ K' fuel,
       get fuel a K' h' = ((get fuel a K' h).1, h')
       ∧ has fuel a K' h' = ((has fuel a K' h).1, h')
       ∧ require fuel a K' h' = ((require fuel a K' h).1, h')).
Proof.
  intros Hoff.
  assert (Hframe : ∀ (h' : heap) rec, h' = <[R := rec]> h →
            ∀ K' fuel,
              get fuel a K' h' = ((get fuel a K' h).1, h')
              ∧ has fuel a K' h' = ((has fuel a K' h).1, h')
              ∧ require fuel a K' h' = ((require fuel a K' h).1, h')).
  { intros h' rec -> K' fuel.
    set (inside := λ b : nat, ∃ i, ancestor h i a = Some b).
    assert (Hagree : ∀ b, inside b → <[R := rec]> h !! b = h !! b).
    { intros b [i Hi]. apply list_lookup_insert_ne. intros ->. by eapply Hoff. }
    assert (Hclosed : ∀ b c p, inside b → h !! b = Some c → parent c = Some p →
              inside p).
    { intros b c p Hb Hc Hp. by eapply chain_closed. }
    assert (Ha : inside a) by by exists 0.
    split; [|split]; apply with_heap.
    - apply get_heap.
    - by apply (get_frame h _ inside Hagree Hclosed).
    - apply has_heap.
    - by apply (has_frame h _ inside Hagree Hclosed).
    - apply require_heap.
    - by apply (require_frame h _ inside Hagree Hclosed). }
  split.
  - intros K V h' Hreg. apply register_inv in Hreg as (k & self & _ & _ & ->).
    by eapply Hframe.
  - intros N h' Hset. apply setParent_inv in Hset as (self & _ & ->).
    by eapply Hframe.
Qed.

Lemma write_off_chain_witness :
  (∀ K V h', register 2 K V three_level_heap = (Ret (), h') →
     ∀ K' fuel,
       get fuel 1 K' h' = ((get fuel 1 K' three_level_heap).1, h')
       ∧ has fuel 1 K' h' = ((has fuel 1 K' three_level_heap).1, h')
       ∧ require fuel 1 K' h' = ((require fuel 1 K' three_level_heap).1, h'))
  ∧ (∀ N h', setParent 2 N three_level_heap = (Ret (), h') →
     ∀ K' fuel,
       get fuel 1 K' h' = ((get fuel 1 K' three_level_heap).1, h')
       ∧ has fuel 1 K' h' = ((has fuel 1 K' three_level_heap).1, h')
       ∧ require fuel 1 K' h' = ((require fuel 1 K' three_level_heap).1, h')).
Proof.
  apply (write_off_chain three_level_heap 1 2).
  intros i. destruct i as [|[|[|i]]]; simpl; discriminate.
Defined.

(** ** Stores built without [setParent] *)

Lemma ordered_from_spec (h : heap) :
  ∀ a, ordered_from a h = true
       ↔ ∀ i c p, h !! i = Some c → parent c = Some p → p < a + i.
Proof.
  induction h as [|c0 h IH]; intros a; simpl.
  - split; [|done]. intros _ i c p Hi. by destruct i.
  - rewrite andb_true_iff, IH. split.
    + intros [H0 Hrest] i c p Hi Hp. destruct i as [|i]; simpl in Hi.
      * injection Hi as ->. rewrite Hp in H0.
        apply (bool_decide_eq_true_1 _) in H0. lia.
      * specialize (Hrest i c p Hi Hp). lia.
    + intros H. split.
      * destruct (parent c0) as [p|] eqn:Hp; [|done].
        apply bool_decide_eq_true_2. specialize (H 0 c0 p eq_refl Hp). lia.
      * intros i c p Hi Hp. specialize (H (S i) c p Hi Hp). lia.
Qed.

Lemma heap_ordered_spec (h : heap) :
  heap_ordered h = true
  ↔ ∀ a c p, h !! a = Some c → parent c = Some p → p < a.
Proof. unfold heap_ordered. by rewrite ordered_from_spec. Qed.

(** X11: without [setParent], parents are older than their children: the
    order "every parent reference is below the reference of its child"
    holds in the empty store and is kept by the constructor (called with
    no parent or with an existing container), by [extend] and by
    [register]. *)
Theorem ordered_preserved (h : heap) :
  heap_ordered h = true →
  heap_ordered [] = true
  ∧ (∀ par r h',
       match par with Some p => p < length h | None => True end →
       new_DependencyContainer par h = (Ret r, h') →
       heap_ordered h' = true)
  ∧ (∀ this r h',
       this < length h →
       extend this h = (Ret r, h') →
       heap_ordered h' = true)
  ∧ (∀ R K V h',
       register R K V h = (Ret (), h') →
       heap_ordered h' = true).
Proof.
  intros Hord. rewrite heap_ordered_spec in Hord.
  assert (Hnew : ∀ par r h',
            match par with Some p => p < length h | None => True end →
            new_DependencyContainer par h = (Ret r, h') →
            heap_ordered h' = true).
  { intros par r h' Hpar [= <- <-]. apply heap_ordered_spec.
    intros a c p Ha Hp. apply lookup_app_Some in Ha as [Ha | [Hlen Ha]].
    - by eapply Hord.
    - destruct (a - length h) as [|j] eqn:Hj; [|by destruct j].
      injection Ha as <-. simpl in Hp. subst par. lia. }
  split; [done|]. split; [done|]. split.
  - intros this r h' Hthis Hext. by apply (Hnew (Some this) r h').
  - intros R K V h' Hreg.
    apply register_inv in Hreg as (k & self & _ & Hself & ->).
    apply heap_ordered_spec. intros a c p Ha Hp.
    apply list_lookup_insert_Some in Ha as [(-> & <- & _) | [Hne Ha]].
    + by eapply Hord.
    + by eapply Hord.
Qed.

Lemma ordered_preserved_witness :
  heap_ordered [] = true
  ∧ (∀ par r h',
       match par with
       | Some p => p < length three_level_heap
       | None => True
       end →
       new_DependencyContainer par three_level_heap = (Ret r, h') →
       heap_ordered h' = true)
  ∧ (∀ this r h',
       this < length three_level_heap →
       extend this three_level_heap = (Ret r, h') →
       heap_ordered h' = true)
  ∧ (∀ R K V h',
       register R K V three_level_heap = (Ret (), h') →
       heap_ordered h' = true).
Proof.
  apply (ordered_preserved three_level_heap). reflexivity.
Defined.

Lemma reaches_root_mono (h : heap) :
  ∀ n m a, reaches_root h n a = true → (n ≤ m)%nat → reaches_root h m a = true.
Proof.
  induction n as [|n IH]; intros m a Hroot Hle;
    destruct m as [|m]; try lia; simpl in *;
    destruct (h !! a) as [c|]; try done;
    destruct (parent c) as [p|]; try done.
  apply (IH m p); [done | lia].
Qed.

Lemma ordered_reaches_root (h : heap) :
  heap_ordered h = true →
  ∀ a, a < length h → reaches_root h a a = true.
Proof.
  intros Hord. rewrite heap_ordered_spec in Hord.
  induction a as [a IH] using lt_wf_ind. intros Ha.
  apply lookup_lt_is_Some_2 in Ha as Hc. destruct Hc as [c Hc].
  destruct (parent c) as [p|] eqn:Hp.
  - pose proof (Hord a c p Hc Hp) as Hlt.
    destruct a as [|a]; [lia|]. simpl. rewrite Hc, Hp.
    apply (reaches_root_mono h p a p); [|lia].
    apply IH; lia.
  - destruct a; simpl; by rewrite Hc, Hp.
Qed.

(** X12: in a store ordered that way (so in every store built without
    [setParent]) no lookup runs away: on the container at reference [a],
    [get] and [has] return and [require] returns or throws the not-found
    error, within [a + 1] nested calls. *)
Theorem ordered_lookup_returns (h : heap) (a : ref) (K : jsval) (k : string) :
  heap_ordered h = true →
  a < length h →
  getInjectableKey K h = (Ret k, h) →
  ∀ fuel, a < fuel →
    (∃ v, get fuel a K h = (Ret v, h))
    ∧ (∃ b, has fuel a K h = (Ret b, h))
    ∧ ((∃ v, require fuel a K h = (Ret v, h))
       ∨ require fuel a K h
         = (Throw (Error ("Required dependency '" ++ k
                          ++ "' not found in container")), h)).
Proof.
  intros Hord Ha Hk fuel Hfuel.
  pose proof (ordered_reaches_root h Hord a Ha) as Hroot.
  destruct (get_terminates h K k a Hk a fuel Hroot Hfuel) as [v Hget].
  split; [by eexists|]. split.
  - apply getInjectableKey_Ret in Hk as Hk'. destruct Hk' as (_ & Hne & _).
    by eapply has_terminates.
  - rewrite (require_step _ _ _ _ _ Hk), Hget.
    destruct (decide (v = VUndefined)); [|by eauto].
    rewrite Hk. by right.
Qed.

Lemma ordered_lookup_returns_witness :
  (∃ v, get 3 2 (VStr "Service1") three_level_heap = (Ret v, three_level_heap))
  ∧ (∃ b, has 3 2 (VStr "Service1") three_level_heap = (Ret b, three_level_heap))
  ∧ ((∃ v, require 3 2 (VStr "Service1") three_level_heap
           = (Ret v, three_level_heap))
     ∨ require 3 2 (VStr "Service1") three_level_heap
       = (Throw (Error "Required dependency 'Service1' not found in container"),
          three_level_heap)).
Proof.
  apply (ordered_lookup_returns three_level_heap 2 (VStr "Service1") "Service1").
  - reflexivity.
  - simpl. lia.
  - reflexivity.
  - lia.
Defined.

(** ** [setParent] does not validate *)

(** X13: [setParent] accepts the container itself as its parent, and from
    then on every lookup on it of an identifier that is not in its own
    table exhausts any call depth; identifiers of its own table are still
    found. *)
Theorem self_parent_diverges (h : heap) (R : ref) (K : jsval) (k : string)
    (self : DependencyContainer) :
  getInjectableKey K h = (Ret k, h) →
  h !! R = Some self →
  ∃ h', setParent R R h = (Ret (), h')
    ∧ (dependencies self !! k = None →
       ∀ fuel, get fuel R K h' = (Diverge, h')
             ∧ has fuel R K h' = (Diverge, h')
             ∧ require fuel R K h' = (Diverge, h'))
    ∧ (∀ v, dependencies self !! k = Some v →
       ∀ fuel, get (S fuel) R K h' = (Ret v, h')
             ∧ has (S fuel) R K h' = (Ret true, h')).
Proof.
  intros Hk Hself. eexists. split; [by apply setParent_step|].
  set (h' := <[R := _]> h).
  assert (HR : h' !! R = Some (mkContainer (dependencies self) (Some R))).
  { apply list_lookup_insert_eq. by eapply lookup_lt_Some. }
  assert (Hk' : getInjectableKey K h' = (Ret k, h'))
    by by eapply getInjectableKey_any_heap.
  split.
  - intros Hmiss fuel.
    assert (Hcyc : on_missing_cycle h' k 0 R).
    { split.
      - simpl. by rewrite HR.
      - intros i b c Hi Hb Hc. assert (i = 0) as -> by lia.
        injection Hb as <-. rewrite HR in Hc. by injection Hc as <-. }
    pose proof (get_diverges h' K k 0 Hk' fuel R Hcyc) as Hget.
    split; [done|]. split; [by eapply has_diverges|].
    by rewrite (require_step _ _ _ _ _ Hk'), Hget.
  - intros v Hv fuel. by eapply own_entry_found.
Qed.

Lemma self_parent_diverges_witness :
  ∃ h', setParent 0 0 service_heap = (Ret (), h')
    ∧ (dependencies (mkContainer {[ "Service" := VObj 1 ]} None) !! "Missing" = None →
       ∀ fuel, get fuel 0 (VStr "Missing") h' = (Diverge, h')
             ∧ has fuel 0 (VStr "Missing") h' = (Diverge, h')
             ∧ require fuel 0 (VStr "Missing") h' = (Diverge, h'))
    ∧ (∀ v, dependencies (mkContainer {[ "Service" := VObj 1 ]} None) !! "Missing"
            = Some v →
       ∀ fuel, get (S fuel) 0 (VStr "Missing") h' = (Ret v, h')
             ∧ has (S fuel) 0 (VStr "Missing") h' = (Ret true, h')).
Proof.
  apply (self_parent_diverges service_heap 0 (VStr "Missing") "Missing"
           (mkContainer {[ "Service" := VObj 1 ]} None)); reflexivity.
Defined.

(** ** Outcomes *)

Lemma get_outcomes (h : heap) (K : jsval) (k : string) :
  heap_wf h = true →
  getInjectableKey K h = (Ret k, h) →
  ∀ fuel a, a < length h →
    (∃ v, get fuel a K h = (Ret v, h)) ∨ get fuel a K h = (Diverge, h).
Proof.
  intros Hwf Hk. rewrite heap_wf_spec in Hwf.
  induction fuel as [|fuel IH]; intros a Ha; [by right|].
  apply lookup_lt_is_Some_2 in Ha as [c Hc].
  rewrite (get_step _ _ _ _ _ _ Hk Hc).
  destruct (dependencies c !! k) as [v|]; [by eauto|].
  destruct (parent c) as [p|] eqn:Hp; [|by eauto].
  apply IH. by eapply Hwf.
Qed.

Lemma has_outcomes (h : heap) (k : string) :
  heap_wf h = true →
  ∀ fuel K a, getInjectableKey K h = (Ret k, h) → a < length h →
    (∃ b, has fuel a K h = (Ret b, h)) ∨ has fuel a K h = (Diverge, h).
Proof.
  intros Hwf. rewrite heap_wf_spec in Hwf.
  induction fuel as [|fuel IH]; intros K a Hk Ha; [by right|].
  apply lookup_lt_is_Some_2 in Ha as [c Hc].
  rewrite (has_step _ _ _ _ _ _ Hk Hc).
  destruct (dependencies c !! k) as [v|]; [by eauto|].
  destruct (parent c) as [p|] eqn:Hp; [|by eauto].
  apply IH; [by eapply getInjectableKey_resolved | by eapply Hwf].
Qed.

(** X14: with a key that resolves, [get] and [has] never throw: they
    return, or the chain is cyclic and the call depth runs out; [require]
    never returns [undefined], and the only error it throws is the
    not-found error that names the identifier. *)
Theorem lookup_outcomes (h : heap) (a : ref) (K : jsval) (k : string) (fuel : nat) :
  heap_wf h = true →
  a < length h →
  getInjectableKey K h = (Ret k, h) →
  ((∃ v, get fuel a K h = (Ret v, h)) ∨ get fuel a K h = (Diverge, h))
  ∧ ((∃ b, has fuel a K h = (Ret b, h)) ∨ has fuel a K h = (Diverge, h))
  ∧ ((∃ v, v ≠ VUndefined ∧ require fuel a K h = (Ret v, h))
     ∨ require fuel a K h
       = (Throw (Error ("Required dependency '" ++ k
                        ++ "' not found in container")), h)
     ∨ require fuel a K h = (Diverge, h)).
Proof.
  intros Hwf Ha Hk. split; [|split].
  - by eapply get_outcomes.
  - by eapply has_outcomes.
  - rewrite (require_step _ _ _ _ _ Hk).
    destruct (get_outcomes h K k Hwf Hk fuel a Ha) as [[v ->] | ->]; [|by eauto].
    destruct (decide (v = VUndefined)); [|by eauto].
    rewrite Hk. by eauto.
Qed.

Lemma lookup_outcomes_witness :
  ((∃ v, get 5 0 (VStr "Missing") cyclic_heap = (Ret v, cyclic_heap))
   ∨ get 5 0 (VStr "Missing") cyclic_heap = (Diverge, cyclic_heap))
  ∧ ((∃ b, has 5 0 (VStr "Missing") cyclic_heap = (Ret b, cyclic_heap))
     ∨ has 5 0 (VStr "Missing") cyclic_heap = (Diverge, cyclic_heap))
  ∧ ((∃ v, v ≠ VUndefined
           ∧ require 5 0 (VStr "Missing") cyclic_heap = (Ret v, cyclic_heap))
     ∨ require 5 0 (VStr "Missing") cyclic_heap
       = (Throw (Error "Required dependency 'Missing' not found in container"),
          cyclic_heap)
     ∨ require 5 0 (VStr "Missing") cyclic_heap = (Diverge, cyclic_heap)).
Proof.
  apply (lookup_outcomes cyclic_heap 0 (VStr "Missing") "Missing" 5).
  - reflexivity.
  - simpl. lia.
  - reflexivity.
Defined.

(** ** Construction *)

(** X15: [new DependencyContainer()] gives a container that was not in the
    store, leaves the existing records as they are, and holds nothing:
    for every key that resolves, [get] returns [undefined], [has] returns
    [false] and [require] throws the not-found error. *)
Theorem new_root_is_empty (h : heap) (K : jsval) (k : string) :
  getInjectableKey K h = (Ret k, h) →
  ∃ r h', new_DependencyContainer None h = (Ret r, h')
    ∧ h !! r = None
    ∧ (∀ a, a ≠ r → h' !! a = h !! a)
    ∧ (heap_wf h = true → heap_wf h' = true)
    ∧ ∀ fuel,
        get (S fuel) r K h' = (Ret VUndefined, h')
        ∧ has (S fuel) r K h' = (Ret false, h')
        ∧ require (S fuel) r K h'
          = (Throw (Error ("Required dependency '" ++ k
                           ++ "' not found in container")), h').
Proof.
  intros Hk.
  exists (length h), (h ++ [mkContainer ∅ None])%list.
  assert (Hr : (h ++ [mkContainer ∅ None])%list !! length h
               = Some (mkContainer ∅ None)) by by rewrite list_lookup_middle.
  split; [done|]. split; [by apply lookup_ge_None_2|]. split; [|split].
  - intros a Ha. destruct (decide (a < length h)) as [Hlt | Hge].
    + by apply lookup_app_l.
    + rewrite !lookup_ge_None_2; [done | lia |].
      rewrite length_app. simpl. lia.
  - rewrite !heap_wf_spec. intros Hwf a c p Ha Hp.
    rewrite length_app. simpl.
    apply lookup_app_Some in Ha as [Ha | [Hlen Ha]].
    + specialize (Hwf a c p Ha Hp). lia.
    + destruct (a - length h) as [|j]; [|by destruct j].
      injection Ha as <-. done.
  - intros fuel. eapply root_miss;
      [by eapply getInjectableKey_any_heap | done | done | apply lookup_empty].
Qed.

Lemma new_root_is_empty_witness :
  ∃ r h', new_DependencyContainer None service_heap = (Ret r, h')
    ∧ service_heap !! r = None
    ∧ (∀ a, a ≠ r → h' !! a = service_heap !! a)
    ∧ (heap_wf service_heap = true → heap_wf h' = true)
    ∧ ∀ fuel,
        get (S fuel) r (VStr "Service") h' = (Ret VUndefined, h')
        ∧ has (S fuel) r (VStr "Service") h' = (Ret false, h')
        ∧ require (S fuel) r (VStr "Service") h'
          = (Throw (Error "Required dependency 'Service' not found in container"), h').
Proof.
  apply (new_root_is_empty service_heap (VStr "Service") "Service"). reflexivity.
Defined.

(** ** Invariants of the store *)

(** X16: references never dangle: when every parent reference of the
    store denotes a container, it still does after [register], after
    [extend] on a container of the store and after [setParent] to a
    container of the store; and no method removes a container. *)
Theorem wf_preserved (h : heap) :
  heap_wf h = true →
  (∀ R K V h', register R K V h = (Ret (), h') →
     heap_wf h' = true ∧ length h' = length h)
  ∧ (∀ this r h', this < length h → extend this h = (Ret r, h') →
     heap_wf h' = true ∧ length h' = S (length h))
  ∧ (∀ R N h', N < length h → setParent R N h = (Ret (), h') →
     heap_wf h' = true ∧ length h' = length h).
Proof.
  intros Hwf. split; [|split].
  - intros R K V h' Hreg. split; [by eapply register_wf|].
    apply register_inv in Hreg as (k & self & _ & _ & ->). apply length_insert.
  - intros this r h' Hthis [= <- <-].
    assert (Hlen : length (h ++ [mkContainer ∅ (Some this)])%list = S (length h))
      by (rewrite length_app; simpl; lia).
    split; [|done]. rewrite heap_wf_spec in Hwf. apply heap_wf_spec.
    intros a c p Ha Hp. rewrite Hlen.
    apply lookup_app_Some in Ha as [Ha | [Hle Ha]].
    + specialize (Hwf a c p Ha Hp). lia.
    + destruct (a - length h) as [|j]; [|by destruct j].
      injection Ha as <-. injection Hp as <-. lia.
  - intros R N h' HN Hset.
    apply setParent_inv in Hset as (self & Hself & ->).
    split; [|apply length_insert].
    rewrite heap_wf_spec in Hwf. apply heap_wf_spec.
    intros a c p Ha Hp. rewrite length_insert.
    apply list_lookup_insert_Some in Ha as [(-> & <- & _) | [Hne Ha]].
    + injection Hp as <-. done.
    + by eapply Hwf.
Qed.

Lemma wf_preserved_witness :
  (∀ R K V h', register R K V three_level_heap = (Ret (), h') →
     heap_wf h' = true ∧ length h' = length three_level_heap)
  ∧ (∀ this r h', this < length three_level_heap →
     extend this three_level_heap = (Ret r, h') →
     heap_wf h' = true ∧ length h' = S (length three_level_heap))
  ∧ (∀ R N h', N < length three_level_heap →
     setParent R N three_level_heap = (Ret (), h') →
     heap_wf h' = true ∧ length h' = length three_level_heap).
Proof.
  apply (wf_preserved three_level_heap). reflexivity.
Defined.

(** X17: no entry is ever stored under the empty identifier: when no table
    of the store has one, none has after [register], [extend] or
    [setParent], whatever their arguments. *)
Theorem no_empty_identifier (h : heap) :
  (∀ a c, h !! a = Some c → dependencies c !! "" = None) →
  (∀ R K V o h', register R K V h = (o, h') →
     ∀ a c, h' !! a = Some c → dependencies c !! "" = None)
  ∧ (∀ this o h', extend this h = (o, h') →
     ∀ a c, h' !! a = Some c → dependencies c !! "" = None)
  ∧ (∀ R N o h', setParent R N h = (o, h') →
     ∀ a c, h' !! a = Some c → dependencies c !! "" = None).
Proof.
  intros Hinv. split; [|split].
  - intros R K V o h' Hreg a c Ha.
    destruct (getInjectableKey_cases K h) as [[k Hk] | Hk];
      [|unfold register, mbind, M_bind in Hreg; rewrite Hk in Hreg;
        injection Hreg as <- <-; by eapply Hinv].
    destruct (h !! R) as [self|] eqn:Hself.
    + rewrite (register_step _ _ _ _ _ _ Hk Hself) in Hreg.
      injection Hreg as <- <-.
      apply list_lookup_insert_Some in Ha as [(-> & <- & _) | [Hne Ha]];
        [|by eapply Hinv].
      simpl. apply getInjectableKey_Ret in Hk as (_ & Hne & _).
      rewrite lookup_insert_ne by done. by eapply Hinv.
    + unfold register, dependencies_set, mbind, M_bind, deref in Hreg.
      rewrite Hk, Hself in Hreg. injection Hreg as <- <-. by eapply Hinv.
  - intros this o h' [= <- <-] a c Ha.
    apply lookup_app_Some in Ha as [Ha | [Hle Ha]]; [by eapply Hinv|].
    destruct (a - length h) as [|j]; [|by destruct j].
    injection Ha as <-. apply lookup_empty.
  - intros R N o h' Hset a c Ha.
    destruct (h !! R) as [self|] eqn:Hself.
    + rewrite (setParent_step _ _ _ _ Hself) in Hset. injection Hset as <- <-.
      apply list_lookup_insert_Some in Ha as [(-> & <- & _) | [Hne Ha]];
        [simpl; eapply Hinv; eassumption | by eapply Hinv].
    + unfold setParent, mbind, M_bind, deref in Hset. rewrite Hself in Hset.
      injection Hset as <- <-. by eapply Hinv.
Qed.

Lemma no_empty_identifier_witness :
  (∀ R K V o h', register R K V three_level_heap = (o, h') →
     ∀ a c, h' !! a = Some c → dependencies c !! "" = None)
  ∧ (∀ this o h', extend this three_level_heap = (o, h') →
     ∀ a c, h' !! a = Some c → dependencies c !! "" = None)
  ∧ (∀ R N o h', setParent R N three_level_heap = (o, h') →
     ∀ a c, h' !! a = Some c → dependencies c !! "" = None).
Proof.
  apply (no_empty_identifier three_level_heap).
  intros a c Ha.
  destruct a as [|[|[|a]]]; simpl in Ha; [| | |done];
    injection Ha as <-; vm_compute; reflexivity.
Defined.
